(** * XMLFileScanner (scanner.js): a shallow embedding and its properties

    The class [XMLFileScanner] of [scanner.js] discovers remotely hosted XML
    files, fingerprints their content and reports what changed between two
    scans.  This development embeds the class method by method:

    - JavaScript strings are sequences of UTF-16 code units ([jsstring]);
    - JavaScript numbers that hold integers are [Z], with the 32-bit
      conversions of the bit operators written out;
    - the [Map]s that are iterated ([currentMap], [previousMap]) are
      insertion-ordered association lists ([JsMap]); the caches, which are
      only looked up, are [gmap]s;
    - [fetch], [Date], [DOMParser] and the host's change callback are
      collaborators, gathered in the class [Collaborators]; asynchronous
      methods are computations in a state monad over the scanner object,
      the outside world and the log of transport exchanges.

    Console output and the timers of [startScanning]/[stopScanning] are not
    modelled. *)

From Stdlib Require Import ZArith Ascii String.
From stdpp Require Import gmap list.

Local Open Scope Z_scope.

(** ** JavaScript strings *)

Module JsString.

(** A string is its sequence of UTF-16 code units; [s.length] is the
    length of the list and [s.charCodeAt(i)] its [i]-th element. *)
Definition jsstring : Type := list N.

(** String literals of the source, written as Rocq strings. *)
Definition js (s : string) : jsstring :=
  map N_of_ascii (list_ascii_of_string s).

(** [s.length] *)
Definition strlen (s : jsstring) : Z := Z.of_nat (length s).

(** A string is truthy when it is not empty. *)
Definition truthy (s : jsstring) : bool :=
  match s with [] => false | _ :: _ => true end.

(** [a === b] on strings *)
Definition streq (a b : jsstring) : bool := bool_decide (a = b).

(** [s.startsWith(p)] *)
Fixpoint startsWith (s p : jsstring) {struct p} : bool :=
  match p, s with
  | [], _ => true
  | _ :: _, [] => false
  | c :: p', d :: s' => if N.eqb c d then startsWith s' p' else false
  end.

(** [s.includes(p)] *)
Fixpoint includes (s p : jsstring) : bool :=
  startsWith s p ||
  match s with
  | [] => false
  | _ :: s' => includes s' p
  end.

(** [s.endsWith(p)] *)
Definition endsWith (s p : jsstring) : bool :=
  startsWith (rev s) (rev p).

(** [s.replace(p, '')] for a string pattern [p]: the first occurrence of
    [p] is removed. *)
Fixpoint remove_first (s p : jsstring) : jsstring :=
  if startsWith s p then drop (length p) s
  else match s with
       | [] => []
       | c :: s' => c :: remove_first s' p
       end.

(** [s.split('\n')]: the pieces between line feeds; an empty string gives
    one empty piece. *)
Fixpoint split_lines (s : jsstring) : list jsstring :=
  match s with
  | [] => [[]]
  | c :: s' =>
      if N.eqb c 10 then [] :: split_lines s'
      else match split_lines s' with
           | [] => [[c]]
           | l :: ls => (c :: l) :: ls
           end
  end.

(** The code units [trim] strips: ECMAScript's WhiteSpace and
    LineTerminator. *)
Definition is_space (c : N) : bool :=
  match c with
  | 9 | 10 | 11 | 12 | 13 | 32 | 160 | 5760
  | 8192 | 8193 | 8194 | 8195 | 8196 | 8197 | 8198 | 8199 | 8200
  | 8201 | 8202 | 8232 | 8233 | 8239 | 8287 | 12288 | 65279 => true
  | _ => false
  end%N.

Fixpoint trim_start (s : jsstring) : jsstring :=
  match s with
  | c :: s' => if is_space c then trim_start s' else s
  | [] => []
  end.

(** [s.trim()] *)
Definition trim (s : jsstring) : jsstring :=
  rev (trim_start (rev (trim_start s))).

End JsString.
Import JsString.

(** ** Numbers *)

Module JsNumber.

(** ToInt32: reduction modulo 2^32 into the signed range. *)
Definition toInt32 (z : Z) : Z :=
  let m := z mod 2 ^ 32 in
  if m <? 2 ^ 31 then m else m - 2 ^ 32.

(** [a << k] *)
Definition shl (a k : Z) : Z :=
  toInt32 (Z.shiftl (toInt32 a) (Z.land k 31)).

(** [a & b] *)
Definition band (a b : Z) : Z :=
  toInt32 (Z.land (toInt32 a) (toInt32 b)).

(** The digit characters of [Number.prototype.toString(radix)]:
    [0-9] then [a-z]. *)
Definition digit_char (d : Z) : N :=
  Z.to_N (if d <? 10 then 48 + d else 87 + d).

(** Digits of a non-negative integer, most significant first.  The fuel
    bounds the number of digits. *)
Fixpoint digits_from (fuel : nat) (radix n : Z) (acc : jsstring) : jsstring :=
  match fuel with
  | O => acc
  | S fuel' =>
      let acc' := digit_char (n mod radix) :: acc in
      if n / radix =? 0 then acc' else digits_from fuel' radix (n / radix) acc'
  end.

Definition digits (radix n : Z) : jsstring :=
  digits_from (S (Z.to_nat (Z.log2 n))) radix n [].

(** [n.toString(radix)] for an integer [n]. *)
Definition toString (radix n : Z) : jsstring :=
  if n <? 0 then 45%N :: digits radix (- n) else digits radix n.

(** [n.toString().padStart(2, '0')] *)
Definition padStart2 (s : jsstring) : jsstring :=
  match s with
  | [] => [48; 48]%N
  | [c] => [48%N; c]
  | _ => s
  end.

End JsNumber.
Import JsNumber.

(** ** The fingerprint of a content string *)

(** [generateChecksum(content)], lines 12-20. *)
Definition generateChecksum (content : jsstring) : jsstring :=
  let hash :=
    fold_left
      (fun hash char =>
         let hash := shl hash 5 - hash + Z.of_N char in
         band hash hash)
      content 0 in
  toString 36 hash.

(** ** Logical names of index lines *)

Module Regex.

(** [\.xml$] under the [i] flag, tried where [s] starts: [s] is exactly a
    dot and the three letters, in either case. *)
Definition xml_at_end (s : jsstring) : bool :=
  match s with
  | [d; x; m; l] =>
      N.eqb d 46 && (N.eqb x 120 || N.eqb x 88) &&
      (N.eqb m 109 || N.eqb m 77) && (N.eqb l 108 || N.eqb l 76)
  | _ => false
  end.

(** The group [([^\/]+?)] followed by [\.xml$], tried where [s] starts.
    The quantifier is lazy: one code unit other than [/] is taken, the
    rest of the pattern is tried, and only when that fails the group
    takes one more.  The result is the text of the group. *)
Fixpoint group_then_xml (s : jsstring) : option jsstring :=
  match s with
  | [] => None
  | c :: s' =>
      if N.eqb c 47 then None
      else if xml_at_end s' then Some [c]
      else match group_then_xml s' with
           | Some g => Some (c :: g)
           | None => None
           end
  end.

(** [line.match(/([^\/]+?)\.xml$/i)]: the start positions are tried from
    the left; the result is [match[1]] of the first success. *)
Fixpoint match_xml (s : jsstring) : option jsstring :=
  match group_then_xml s with
  | Some g => Some g
  | None =>
      match s with
      | [] => None
      | _ :: s' => match_xml s'
      end
  end.

End Regex.

(** The mapping of lines 122-126 (also lines 156-160):
    [match ? match[1] : line.replace('.xml', '')]. *)
Definition extract_name (line : jsstring) : jsstring :=
  match Regex.match_xml line with
  | Some m1 => m1
  | None => remove_first line (js ".xml")
  end.

(** Lines 119-127 of [tryIndexFile]: the names listed by the body of an
    index file. *)
Definition index_names (text : jsstring) : list jsstring :=
  List.filter (fun file => 0 <? strlen file)
    (map extract_name
       (List.filter
          (fun line =>
             truthy line &&
             (endsWith line (js ".xml") || includes line (js ".xml")))
          (map trim (split_lines text)))).

(** ** Data model *)

(** The records pushed by [scanDirectory], lines 62-68. *)
Record FileRecord := {
  name : jsstring;
  url : jsstring;
  checksum : jsstring;
  lastModified : jsstring;
  size : Z
}.

(** The result of [getFileInfo]: [{ exists: false }] or the full record of
    lines 33-39. *)
Inductive FileInfo :=
| Missing
| Present (content checksum lastModified : jsstring) (size : Z).

Definition exists_ (i : FileInfo) : bool :=
  match i with Missing => false | Present _ _ _ _ => true end.

Record ChangeFlags := {
  contentChanged : bool;
  sizeChanged : bool;
  timeChanged : bool
}.

(** The entries pushed to [changes.modified], lines 351-360. *)
Record ModifiedEntry := {
  m_name : jsstring;
  previous : FileRecord;
  current : FileRecord;
  changes : ChangeFlags
}.

(** The object built by [detectChanges], lines 306-313. *)
Record ChangeReport := {
  hasChanges : bool;
  added : list FileRecord;
  removed : list FileRecord;
  modified : list ModifiedEntry;
  unchanged : list FileRecord;
  allFiles : list jsstring
}.

(** The value of an entry of [this.cache], lines 255-258. *)
Record CacheEntry := {
  c_exists : bool;
  timestamp : Z
}.

(** ** Insertion-ordered maps *)

Module JsMap.

(** A [Map] with string keys: the entries in insertion order, each key
    once. *)
Definition t (V : Type) : Type := list (jsstring * V).

Definition empty {V} : t V := [].

(** [m.get(k)]; [None] is [undefined]. *)
Fixpoint get {V} (m : t V) (k : jsstring) : option V :=
  match m with
  | [] => None
  | (k', v) :: m' => if streq k' k then Some v else get m' k
  end.

(** [m.has(k)] *)
Definition has {V} (m : t V) (k : jsstring) : bool :=
  match get m k with Some _ => true | None => false end.

(** [m.set(k, v)]: an existing key keeps its place and takes the new
    value, a new key goes last. *)
Fixpoint set {V} (m : t V) (k : jsstring) (v : V) : t V :=
  match m with
  | [] => [(k, v)]
  | (k', v') :: m' =>
      if streq k' k then (k', v) :: m' else (k', v') :: set m' k v
  end.

Definition keys {V} (m : t V) : list jsstring := map fst m.

End JsMap.

(** ** Change detection *)

Definition strict_ne_str (a b : jsstring) : bool := negb (streq a b).
Definition strict_ne_num (a b : Z) : bool := negb (a =? b).

Definition set_hasChanges (c : ChangeReport) : ChangeReport :=
  {| hasChanges := true; added := added c; removed := removed c;
     modified := modified c; unchanged := unchanged c;
     allFiles := allFiles c |}.

Definition push_added (c : ChangeReport) (f : FileRecord) : ChangeReport :=
  {| hasChanges := hasChanges c; added := added c ++ [f];
     removed := removed c; modified := modified c;
     unchanged := unchanged c; allFiles := allFiles c |}.

Definition push_removed (c : ChangeReport) (f : FileRecord) : ChangeReport :=
  {| hasChanges := hasChanges c; added := added c;
     removed := removed c ++ [f]; modified := modified c;
     unchanged := unchanged c; allFiles := allFiles c |}.

Definition push_modified (c : ChangeReport) (e : ModifiedEntry)
    : ChangeReport :=
  {| hasChanges := hasChanges c; added := added c; removed := removed c;
     modified := modified c ++ [e]; unchanged := unchanged c;
     allFiles := allFiles c |}.

Definition push_unchanged (c : ChangeReport) (f : FileRecord) : ChangeReport :=
  {| hasChanges := hasChanges c; added := added c; removed := removed c;
     modified := modified c; unchanged := unchanged c ++ [f];
     allFiles := allFiles c |}.

(** The two [forEach] loops of lines 316-324. *)
Definition build_map (files : list FileRecord) : JsMap.t FileRecord :=
  fold_left (fun m file => JsMap.set m (name file) file) files JsMap.empty.

(** Body of the loop of lines 327-332. *)
Definition check_added (previousMap : JsMap.t FileRecord)
    (c : ChangeReport) (entry : jsstring * FileRecord) : ChangeReport :=
  let '(name, file) := entry in
  if negb (JsMap.has previousMap name)
  then set_hasChanges (push_added c file)
  else c.

(** Body of the loop of lines 335-340. *)
Definition check_removed (currentMap : JsMap.t FileRecord)
    (c : ChangeReport) (entry : jsstring * FileRecord) : ChangeReport :=
  let '(name, file) := entry in
  if negb (JsMap.has currentMap name)
  then set_hasChanges (push_removed c file)
  else c.

(** Body of the loop of lines 343-366. *)
Definition check_modified (previousMap : JsMap.t FileRecord)
    (c : ChangeReport) (entry : jsstring * FileRecord) : ChangeReport :=
  let '(name, currentFile) := entry in
  match JsMap.get previousMap name with
  | Some previousFile =>
      if strict_ne_str (checksum currentFile) (checksum previousFile) ||
         strict_ne_str (lastModified currentFile) (lastModified previousFile) ||
         strict_ne_num (size currentFile) (size previousFile)
      then
        set_hasChanges
          (push_modified c
             {| m_name := name;
                previous := previousFile;
                current := currentFile;
                changes :=
                  {| contentChanged :=
                       strict_ne_str (checksum currentFile)
                         (checksum previousFile);
                     sizeChanged :=
                       strict_ne_num (size currentFile) (size previousFile);
                     timeChanged :=
                       strict_ne_str (lastModified currentFile)
                         (lastModified previousFile) |} |})
      else push_unchanged c currentFile
  | None => c
  end.

(** [detectChanges(currentFiles)], lines 305-383, as a function of the
    retained [this.lastScanResults] and of its argument. *)
Definition diff_snapshots (lastScanResults currentFiles : list FileRecord)
    : ChangeReport :=
  let changes :=
    {| hasChanges := false; added := []; removed := []; modified := [];
       unchanged := []; allFiles := map name currentFiles |} in
  let currentMap := build_map currentFiles in
  let previousMap := build_map lastScanResults in
  let changes := fold_left (check_added previousMap) currentMap changes in
  let changes := fold_left (check_removed currentMap) previousMap changes in
  let changes := fold_left (check_modified previousMap) currentMap changes in
  changes.

(** ** Collaborators *)

Inductive Method := GET | HEAD.

(** A call [fetch(url)] or [fetch(url, { method: 'HEAD' })]. *)
Record Request := {
  method : Method;
  target : jsstring
}.

(** What [response.json()] gives, as far as [checkChaptersJson] looks at
    it: an array, whose elements are strings or something else, or a value
    that is not an array. *)
Inductive JsonItem := JString (s : jsstring) | JOther.
Inductive Json := JArray (items : list JsonItem) | JNotArray.

(** A response: [response.ok], [response.headers.get(name)] ([None] is
    [null]), [await response.text()] and [await response.json()] ([None]
    when the promise rejects). *)
Record Response := {
  ok : bool;
  headers_get : jsstring -> option jsstring;
  text : option jsstring;
  json : option Json
}.

(** The promise returned by [fetch] rejects or resolves to a response. *)
Inductive Settled := Rejected | Fulfilled (response : Response).

(** A value passed to [onChange(callback)]: a function of the host, or any
    other value, of which only the truthiness matters. *)
Inductive JsValue (Callback : Type) :=
| VFunction (f : Callback)
| VOther (truthy : bool).
Arguments VFunction {Callback} f.
Arguments VOther {Callback} truthy.

(** What [this.onChange] evaluates to: the method of lines 412-414, found
    on the prototype, until an own property of that name is assigned. *)
Inductive Handler (Callback : Type) :=
| PrototypeMethod
| OwnProperty (v : JsValue Callback).
Arguments PrototypeMethod {Callback}.
Arguments OwnProperty {Callback} v.

(** The outside of the scanner: the transport, the clock, the HTML parser
    and the host's callbacks.  [xml_hrefs html] is the list of
    [a.getAttribute('href')] over
    [doc.querySelectorAll('a[href$=".xml"], a[href*=".xml"]')], [None] when
    parsing throws; [invoke f report w] calls the host function [f] and
    tells whether it returned normally. *)
Class Collaborators (World Callback : Type) := {
  fetch : Request -> World -> Settled * World;
  Date_now : World -> Z * World;
  Date_toISOString : World -> jsstring * World;
  xml_hrefs : jsstring -> option (list jsstring);
  invoke : Callback -> ChangeReport -> World -> bool * World
}.

(** The host's side of a call [scanner.onChange(v)] that finds a host
    function in the slot: [apply_handler f v w] calls [f] with the value
    [v] and tells whether it returned normally.  Like [invoke], it acts on
    the world only. *)
Class Host (World Callback : Type) := {
  apply_handler : Callback -> JsValue Callback -> World -> bool * World
}.

(** ** The scanner object *)

(** The fields set by the constructor, lines 3-9, and the [onChange] slot.
    [scanInterval] belongs to the timers and is left out. *)
Record XMLFileScanner (Callback : Type) := {
  cache : gmap jsstring CacheEntry;
  contentCache : gmap jsstring jsstring;
  lastScanResults : list FileRecord;
  fileChecksums : gmap jsstring jsstring;
  onChange : Handler Callback
}.
Arguments cache {Callback} _.
Arguments contentCache {Callback} _.
Arguments lastScanResults {Callback} _.
Arguments fileChecksums {Callback} _.
Arguments onChange {Callback} _.

(** [new XMLFileScanner()] *)
Definition constructor {Callback : Type} : XMLFileScanner Callback :=
  {| cache := ∅; contentCache := ∅; lastScanResults := [];
     fileChecksums := ∅; onChange := PrototypeMethod |}.

(** What [performScan] returns: the report, or the object
    [{ hasChanges: false }] of line 300. *)
Inductive ScanResult :=
| Report (c : ChangeReport)
| Failed.

Section Methods.

Context {World Callback : Type} {env : Collaborators World Callback}.

(** The scanner, the world and the transport exchanges so far. *)
Record Sys := {
  self : XMLFileScanner Callback;
  world : World;
  exchanges : list (Request * Settled)
}.

(** Methods are state-passing computations. *)
Definition M (A : Type) : Type := Sys -> A * Sys.

Definition ret {A} (a : A) : M A := fun s => (a, s).

Definition bind {A B} (m : M A) (k : A -> M B) : M B :=
  fun s => let '(a, s') := m s in k a s'.

Notation "'let*' x := m 'in' k" := (bind m (fun x => k))
  (at level 10, x name, m at level 100, k at level 200).
Notation "m ;; k" := (bind m (fun _ => k))
  (at level 100, k at level 200, right associativity).

(** [await fetch(...)], recorded in the log. *)
Definition await_fetch (req : Request) : M Settled :=
  fun s =>
    let '(r, w) := fetch req (world s) in
    (r, {| self := self s; world := w;
           exchanges := exchanges s ++ [(req, r)] |}).

(** [Date.now()] *)
Definition now : M Z :=
  fun s =>
    let '(t, w) := Date_now (world s) in
    (t, {| self := self s; world := w; exchanges := exchanges s |}).

(** [new Date().toISOString()] *)
Definition isoNow : M jsstring :=
  fun s =>
    let '(t, w) := Date_toISOString (world s) in
    (t, {| self := self s; world := w; exchanges := exchanges s |}).

Definition this : M (XMLFileScanner Callback) := fun s => (self s, s).

Definition assign (f : XMLFileScanner Callback -> XMLFileScanner Callback)
    : M unit :=
  fun s =>
    (tt, {| self := f (self s); world := world s;
            exchanges := exchanges s |}).

Definition call_host (f : Callback) (c : ChangeReport) : M bool :=
  fun s =>
    let '(b, w) := invoke f c (world s) in
    (b, {| self := self s; world := w; exchanges := exchanges s |}).

(** A [for ... of] loop that threads a local value. *)
Fixpoint for_of {A B} (l : list A) (body : B -> A -> M B) (b : B) : M B :=
  match l with
  | [] => ret b
  | a :: l' => let* b' := body b a in for_of l' body b'
  end.

Definition set_cache (c : gmap jsstring CacheEntry)
    (o : XMLFileScanner Callback) : XMLFileScanner Callback :=
  {| cache := c; contentCache := contentCache o;
     lastScanResults := lastScanResults o;
     fileChecksums := fileChecksums o; onChange := onChange o |}.

Definition set_contentCache (c : gmap jsstring jsstring)
    (o : XMLFileScanner Callback) : XMLFileScanner Callback :=
  {| cache := cache o; contentCache := c;
     lastScanResults := lastScanResults o;
     fileChecksums := fileChecksums o; onChange := onChange o |}.

Definition set_lastScanResults (r : list FileRecord)
    (o : XMLFileScanner Callback) : XMLFileScanner Callback :=
  {| cache := cache o; contentCache := contentCache o;
     lastScanResults := r;
     fileChecksums := fileChecksums o; onChange := onChange o |}.

Definition set_onChange (h : Handler Callback)
    (o : XMLFileScanner Callback) : XMLFileScanner Callback :=
  {| cache := cache o; contentCache := contentCache o;
     lastScanResults := lastScanResults o;
     fileChecksums := fileChecksums o; onChange := h |}.

(** ** [getFileInfo], lines 23-45 *)

(** [h || rest]: a header that is [null] or empty gives way. *)
Definition or_else (h : option jsstring) (rest : M jsstring) : M jsstring :=
  match h with
  | Some v => if truthy v then ret v else rest
  | None => rest
  end.

Definition getFileInfo (url : jsstring) : M FileInfo :=
  let* r := await_fetch {| method := GET; target := url |} in
  match r with
  | Fulfilled response =>
      if ok response then
        match text response with
        | Some content =>
            let checksum := generateChecksum content in
            let* lastModified :=
              or_else (headers_get response (js "last-modified"))
                (or_else (headers_get response (js "date")) isoNow) in
            ret (Present content checksum lastModified (strlen content))
        | None => ret Missing
        end
      else ret Missing
  | Rejected => ret Missing
  end.

(** ** [testFileExists], lines 242-264 *)

(** Lines 251-260: the probe and the write to the cache. *)
Definition probe (url cacheKey : jsstring) : M bool :=
  let* r := await_fetch {| method := HEAD; target := url |} in
  match r with
  | Fulfilled response =>
      let exists_ := ok response in
      let* t := now in
      assign (fun o =>
        set_cache
          (<[cacheKey := {| c_exists := exists_; timestamp := t |}]> (cache o))
          o) ;;
      ret exists_
  | Rejected => ret false
  end.

Definition testFileExists (url : jsstring) : M bool :=
  let cacheKey := js "exists:" ++ url in
  let* o := this in
  match cache o !! cacheKey with
  | Some cached =>
      let* t := now in
      if t - timestamp cached <? 30000
      then ret (c_exists cached)
      else probe url cacheKey
  | None => probe url cacheKey
  end.

(** ** The four discovery methods *)

(** The candidates of lines 105-112. *)
Definition indexFiles : list jsstring :=
  [js "index.txt"; js "files.txt"; js "chapters.txt"; js "list.txt";
   js "manifest.txt"; js "xml-list.txt"].

(** The loop of lines 114-137 over the remaining candidates; a rejected
    promise is caught and the loop goes on. *)
Fixpoint tryIndexFile_loop (basePath : jsstring) (candidates : list jsstring)
    : M (list jsstring) :=
  match candidates with
  | [] => ret []
  | indexFile :: rest =>
      let* r :=
        await_fetch {| method := GET; target := basePath ++ indexFile |} in
      match r with
      | Fulfilled response =>
          if ok response then
            match text response with
            | Some text =>
                let files := index_names text in
                if 0 <? Z.of_nat (length files) then ret files
                else tryIndexFile_loop basePath rest
            | None => tryIndexFile_loop basePath rest
            end
          else tryIndexFile_loop basePath rest
      | Rejected => tryIndexFile_loop basePath rest
      end
  end.

(** [tryIndexFile], lines 104-140. *)
Definition tryIndexFile (basePath : jsstring) : M (list jsstring) :=
  tryIndexFile_loop basePath indexFiles.

(** Lines 154-161: from the hrefs to the names. *)
Definition link_names (hrefs : list jsstring) : list jsstring :=
  List.filter (fun file => 0 <? strlen file)
    (map extract_name
       (List.filter
          (fun href =>
             truthy href && negb (startsWith href (js "http")) &&
             negb (startsWith href (js "#")))
          hrefs)).

(** [tryDirectoryListing], lines 143-173. *)
Definition tryDirectoryListing (basePath : jsstring) : M (list jsstring) :=
  let* r := await_fetch {| method := GET; target := basePath |} in
  match r with
  | Fulfilled response =>
      if ok response &&
         match headers_get response (js "content-type") with
         | Some ct => includes ct (js "text/html")
         | None => false
         end
      then
        match text response with
        | Some html =>
            match xml_hrefs html with
            | Some hrefs =>
                let links := link_names hrefs in
                if 0 <? Z.of_nat (length links) then ret links else ret []
            | None => ret []
            end
        | None => ret []
        end
      else ret []
  | Rejected => ret []
  end.

Definition commonPatterns : list jsstring :=
  [js "chapter-"; js "quiz-"; js "test-"; js "questions-";
   js "unit-"; js "lesson-"; js "topic-"; js "module-";
   js "ch-"; js "q-"; js "t-"; js "ex-"].

Definition maxChecks : Z := 30.

Definition commonNames : list jsstring :=
  [js "questions"; js "quiz"; js "test"; js "exam"; js "practice";
   js "exercise"; js "problems"; js "review"; js "final"; js "midterm";
   js "chapter1"; js "chapter2"; js "chapter3"; js "unit1"; js "unit2";
   js "algebra"; js "geometry"; js "calculus"; js "physics";
   js "chemistry"].

(** [tryPatternScanning], lines 176-219. *)
Definition tryPatternScanning (basePath : jsstring) : M (list jsstring) :=
  let* foundFiles :=
    for_of (seqZ 1 maxChecks)
      (fun foundFiles i =>
         for_of commonPatterns
           (fun foundFiles pattern =>
              let testPath :=
                basePath ++ pattern ++ toString 10 i ++ js ".xml" in
              let* e := testFileExists testPath in
              let foundFiles :=
                if e then foundFiles ++ [pattern ++ toString 10 i]
                else foundFiles in
              let paddedNum := padStart2 (toString 10 i) in
              let paddedPath := basePath ++ pattern ++ paddedNum ++ js ".xml" in
              let* e := testFileExists paddedPath in
              ret (if e then foundFiles ++ [pattern ++ paddedNum]
                   else foundFiles))
           foundFiles)
      [] in
  for_of commonNames
    (fun foundFiles name =>
       let testPath := basePath ++ name ++ js ".xml" in
       let* e := testFileExists testPath in
       ret (if e then foundFiles ++ [name] else foundFiles))
    foundFiles.

(** Lines 228-231: the string entries, trimmed, without the empty ones. *)
Definition chapter_names (chapters : list JsonItem) : list jsstring :=
  List.filter (fun chapter => 0 <? strlen chapter)
    (map trim
       (omap (fun chapter =>
                match chapter with
                | JString s => if truthy s then Some s else None
                | JOther => None
                end)
          chapters)).

(** [checkChaptersJson], lines 222-239. *)
Definition checkChaptersJson (basePath : jsstring) : M (list jsstring) :=
  let* r :=
    await_fetch
      {| method := GET; target := basePath ++ js "chapters.json" |} in
  match r with
  | Fulfilled response =>
      if ok response then
        match json response with
        | Some (JArray chapters) => ret (chapter_names chapters)
        | Some JNotArray => ret []
        | None => ret []
        end
      else ret []
  | Rejected => ret []
  end.

(** [foundFiles.add(file)] on a [Set], kept in insertion order. *)
Definition set_add (foundFiles : list jsstring) (file : jsstring)
    : list jsstring :=
  if bool_decide (file ∈ foundFiles) then foundFiles
  else foundFiles ++ [file].

(** [discoverFiles], lines 81-101. *)
Definition discoverFiles (basePath : jsstring) : M (list jsstring) :=
  let foundFiles := [] in
  let* indexFiles := tryIndexFile basePath in
  let foundFiles := fold_left set_add indexFiles foundFiles in
  let* dirFiles := tryDirectoryListing basePath in
  let foundFiles := fold_left set_add dirFiles foundFiles in
  let* patternFiles := tryPatternScanning basePath in
  let foundFiles := fold_left set_add patternFiles foundFiles in
  let* chapterFiles := checkChaptersJson basePath in
  let foundFiles := fold_left set_add chapterFiles foundFiles in
  ret foundFiles.

(** ** [scanDirectory], lines 48-78 *)

(** Body of the loop of lines 57-70. *)
Definition scan_file (basePath : jsstring) (fileDetails : list FileRecord)
    (fileName : jsstring) : M (list FileRecord) :=
  let fileUrl := basePath ++ fileName ++ js ".xml" in
  let* fileInfo := getFileInfo fileUrl in
  match fileInfo with
  | Present _ checksum lastModified size =>
      ret (fileDetails ++
           [{| name := fileName; url := fileUrl; checksum := checksum;
               lastModified := lastModified; size := size |}])
  | Missing => ret fileDetails
  end.

Definition scanDirectory (basePath : jsstring) : M (list FileRecord) :=
  let* fileNames := discoverFiles basePath in
  for_of fileNames (scan_file basePath) [].

(** ** [detectChanges] and [performScan], lines 282-383 *)

Definition detectChanges (currentFiles : list FileRecord) : M ChangeReport :=
  let* o := this in
  ret (diff_snapshots (lastScanResults o) currentFiles).

(** The truthiness of [this.onChange]. *)
Definition handler_truthy (h : Handler Callback) : bool :=
  match h with
  | PrototypeMethod => true
  | OwnProperty (VFunction _) => true
  | OwnProperty (VOther t) => t
  end.

(** The method [onChange(callback)], lines 412-414. *)
Definition onChange_method (callback : JsValue Callback) : M unit :=
  assign (set_onChange (OwnProperty callback)).

(** [performScan], lines 282-302.  The call [this.onChange(changes)] runs
    the method of lines 412-414 while no own property hides it, which
    stores the report in the slot; it calls the host function when one
    was registered; on any other value it throws, and so may the host
    function: line 300 then answers.  Host functions act on the world
    only. *)
Definition performScan (basePath : jsstring) : M ScanResult :=
  let* currentFiles := scanDirectory basePath in
  let* changes := detectChanges currentFiles in
  assign (set_lastScanResults currentFiles) ;;
  let* o := this in
  if hasChanges changes && handler_truthy (onChange o) then
    match onChange o with
    | PrototypeMethod =>
        onChange_method (VOther true) ;;
        ret (Report changes)
    | OwnProperty (VFunction f) =>
        let* returned := call_host f changes in
        if returned : bool then ret (Report changes) else ret Failed
    | OwnProperty (VOther _) => ret Failed
    end
  else ret (Report changes).

(** ** The remaining public methods *)

(** [refreshFile], lines 394-403. *)
Definition refreshFile (fileName basePath : jsstring) : M FileInfo :=
  let fileUrl := basePath ++ fileName ++ js ".xml" in
  assign (fun o => set_cache (delete (js "exists:" ++ fileUrl) (cache o)) o) ;;
  assign (fun o => set_contentCache (delete fileUrl (contentCache o)) o) ;;
  getFileInfo fileUrl.

(** [getCachedContent], lines 406-409; [None] is [undefined]. *)
Definition getCachedContent (fileName basePath : jsstring)
    : M (option jsstring) :=
  let fileUrl := basePath ++ fileName ++ js ".xml" in
  let* o := this in
  ret (contentCache o !! fileUrl).

(** [cleanupCache], lines 417-424; [None] takes the default of one
    hour. *)
Definition cleanupCache (maxAge : option Z) : M unit :=
  let maxAge := default 3600000 maxAge in
  let* t := now in
  assign (fun o =>
    set_cache
      (filter
         (fun kv : jsstring * CacheEntry => ¬ (t - timestamp kv.2 > maxAge))
         (cache o))
      o).

(** ** Histories of calls *)

Context {host : Host World Callback}.

(** The call [scanner.onChange(callback)] as a client writes it: property
    lookup first.  While no own property hides it, the method of lines
    412-414 runs and registers [callback]; once the slot holds a function,
    that function is called with [callback] and nothing is registered; on
    any other value the call throws a [TypeError].  The result tells
    whether the call returned normally. *)
Definition call_onChange (callback : JsValue Callback) : M bool :=
  let* o := this in
  match onChange o with
  | PrototypeMethod => onChange_method callback ;; ret true
  | OwnProperty (VFunction f) =>
      fun s =>
        let '(returned, w) := apply_handler f callback (world s) in
        (returned, {| self := self s; world := w; exchanges := exchanges s |})
  | OwnProperty (VOther _) => ret false
  end.

(** The calls a client makes and awaits one after the other.
    [startScanning] and [stopScanning] are not among them: their scans run
    on timers, interleaved with the client's calls. *)
Inductive Call :=
| GetFileInfo (url : jsstring)
| ScanDirectory (basePath : jsstring)
| DiscoverFiles (basePath : jsstring)
| TryIndexFile (basePath : jsstring)
| TryDirectoryListing (basePath : jsstring)
| TryPatternScanning (basePath : jsstring)
| CheckChaptersJson (basePath : jsstring)
| TestFileExists (url : jsstring)
| PerformScan (basePath : jsstring)
| DetectChanges (currentFiles : list FileRecord)
| RefreshFile (fileName basePath : jsstring)
| GetCachedContent (fileName basePath : jsstring)
| OnChange (callback : JsValue Callback)
| CleanupCache (maxAge : option Z).

(** The state after a call, its result dropped. *)
Definition run (c : Call) (s : Sys) : Sys :=
  match c with
  | GetFileInfo url => (getFileInfo url s).2
  | ScanDirectory basePath => (scanDirectory basePath s).2
  | DiscoverFiles basePath => (discoverFiles basePath s).2
  | TryIndexFile basePath => (tryIndexFile basePath s).2
  | TryDirectoryListing basePath => (tryDirectoryListing basePath s).2
  | TryPatternScanning basePath => (tryPatternScanning basePath s).2
  | CheckChaptersJson basePath => (checkChaptersJson basePath s).2
  | TestFileExists url => (testFileExists url s).2
  | PerformScan basePath => (performScan basePath s).2
  | DetectChanges currentFiles => (detectChanges currentFiles s).2
  | RefreshFile fileName basePath => (refreshFile fileName basePath s).2
  | GetCachedContent fileName basePath =>
      (getCachedContent fileName basePath s).2
  | OnChange callback => (call_onChange callback s).2
  | CleanupCache maxAge => (cleanupCache maxAge s).2
  end.

(** A fresh scanner in a world, then the calls in order. *)
Definition boot (w : World) : Sys :=
  {| self := constructor; world := w; exchanges := [] |}.

Definition run_all (calls : list Call) (s : Sys) : Sys :=
  fold_left (fun s c => run c s) calls s.

End Methods.

(** ** Vocabulary of the specification *)

(** The value of a digit character, and of a digit string read in a radix;
    used to check that [toString] renders every digit. *)
Definition digit_value (c : N) : Z :=
  if (c <? 58)%N then Z.of_N c - 48 else Z.of_N c - 87.

Definition digits_value (radix : Z) (s : jsstring) : Z :=
  fold_left (fun a c => a * radix + digit_value c) s 0.

Definition numeral_value (radix : Z) (s : jsstring) : Z :=
  match s with
  | 45%N :: s' => - digits_value radix s'
  | _ => digits_value radix s
  end.

(** The fingerprint as section 4.1 of the specification words it:
    [hash = (hash*31 - hash) + code] under 32-bit signed wraparound, then
    base 36. *)
Definition fingerprint_as_worded (content : jsstring) : jsstring :=
  toString 36
    (fold_left (fun hash code => toInt32 ((hash * 31 - hash) + Z.of_N code))
       content 0).

(** The set of names of a list of records, and of modified entries. *)
Definition names (l : list FileRecord) : gset jsstring :=
  list_to_set (map name l).

Definition modified_names (l : list ModifiedEntry) : gset jsstring :=
  list_to_set (map m_name l).

(** The three comparisons of lines 347-349. *)
Definition differs (c p : FileRecord) : Prop :=
  checksum c ≠ checksum p ∨ lastModified c ≠ lastModified p ∨
  size c ≠ size p.

(** The record a snapshot has for a name: the one record of that name in
    a snapshot whose names are distinct, the last one when the name is
    repeated. *)
Definition record_named (n : jsstring) (l : list FileRecord)
    : option FileRecord :=
  last (List.filter (fun f => streq (name f) n) l).

(** The names an exchange with an index file yields: those of the body of
    a successful response, none otherwise. *)
Definition listed (r : Settled) : list jsstring :=
  match r with
  | Fulfilled response =>
      if ok response then
        match text response with
        | Some body => index_names body
        | None => []
        end
      else []
  | Rejected => []
  end.

(** The logical name as section 4.4 words it: the segment before [.xml],
    after the last [/]. *)
Fixpoint before_xml (line : jsstring) : jsstring :=
  if startsWith line (js ".xml") then []
  else match line with
       | [] => []
       | c :: line' => c :: before_xml line'
       end.

Fixpoint after_last_slash (s : jsstring) : jsstring :=
  match s with
  | [] => []
  | c :: s' =>
      if bool_decide (47%N ∈ s) then after_last_slash s' else s
  end.

Definition name_as_worded (line : jsstring) : jsstring :=
  after_last_slash (before_xml line).

(** A header counts when it is there and not empty. *)
Definition usable (h : option jsstring) : option jsstring :=
  match h with
  | Some v => if truthy v then Some v else None
  | None => None
  end.

(** The time stamp as section 4.2 of the specification words it: the
    [last-modified] header, the [date] header when that one is not
    present, the current time when neither is. *)
Definition lastModified_as_worded (response : Response)
    (current : jsstring) : jsstring :=
  match headers_get response (js "last-modified") with
  | Some v => v
  | None =>
      match headers_get response (js "date") with
      | Some d => d
      | None => current
      end
  end.

(** The report in closed form: the lists that the three loops of
    [detectChanges] build. *)
Definition nonempty {A} (l : list A) : bool :=
  match l with [] => false | _ :: _ => true end.

Definition differb (c p : FileRecord) : bool :=
  strict_ne_str (checksum c) (checksum p) ||
  strict_ne_str (lastModified c) (lastModified p) ||
  strict_ne_num (size c) (size p).

Definition entry_of (n : jsstring) (p c : FileRecord) : ModifiedEntry :=
  {| m_name := n; previous := p; current := c;
     changes :=
       {| contentChanged := strict_ne_str (checksum c) (checksum p);
          sizeChanged := strict_ne_num (size c) (size p);
          timeChanged := strict_ne_str (lastModified c) (lastModified p) |} |}.

Definition only_in (m other : JsMap.t FileRecord) : list FileRecord :=
  map snd (List.filter (fun e => negb (JsMap.has other e.1)) m).

Definition modified_of (previousMap : JsMap.t FileRecord)
    (e : jsstring * FileRecord) : option ModifiedEntry :=
  match JsMap.get previousMap e.1 with
  | Some p => if differb e.2 p then Some (entry_of e.1 p e.2) else None
  | None => None
  end.

Definition unchanged_of (previousMap : JsMap.t FileRecord)
    (e : jsstring * FileRecord) : option FileRecord :=
  match JsMap.get previousMap e.1 with
  | Some p => if differb e.2 p then None else Some e.2
  | None => None
  end.

(** Two scanner objects that differ at most in [cache]. *)
Definition same_but_cache {Callback} (o o' : XMLFileScanner Callback) : Prop :=
  contentCache o' = contentCache o ∧
  lastScanResults o' = lastScanResults o ∧
  fileChecksums o' = fileChecksums o ∧
  onChange o' = onChange o.

(** A computation that writes no field of the scanner but [cache]. *)
Definition Framed {World Callback A} (m : @M World Callback A) : Prop :=
  forall s, same_but_cache (self s) (self (m s).2).

(** What lines 245-249 of [testFileExists] find: the cached answer when
    there is an entry and the clock, read then, shows it younger than
    30000 ms; with the world after the reading. *)
Definition fresh_entry {World Callback} {env : Collaborators World Callback}
    (url : jsstring) (s : @Sys World Callback) : option bool * World :=
  match cache (self s) !! (js "exists:" ++ url) with
  | Some cached =>
      let '(t, w) := Date_now (world s) in
      (if t - timestamp cached <? 30000 then Some (c_exists cached) else None,
       w)
  | None => (None, world s)
  end.

Definition with_world {World Callback} (s : @Sys World Callback) (w : World)
    : @Sys World Callback :=
  {| self := self s; world := w; exchanges := exchanges s |}.

(** The request for an index file, and an exchange that lists no name. *)
Definition get_index (basePath indexFile : jsstring) : Request :=
  {| method := GET; target := basePath ++ indexFile |}.

Definition yields_nothing (e : Request * Settled) : Prop := listed e.2 = [].

(** ** Sample worlds *)

Module Sample.

(** A world is a clock in milliseconds; each reading of the clock takes
    a second.  The server answers by a fixed function of the request, no
    HTML is parsed and callbacks return. *)
Definition world_of (respond : Request -> Settled)
    : Collaborators Z unit :=
  {| fetch := fun req w => (respond req, w);
     Date_now := fun w => (w, w + 1000);
     Date_toISOString := fun w => (js "2024-01-01T00:00:00.000Z", w);
     xml_hrefs := fun _ => None;
     invoke := fun _ _ w => (true, w) |}.

Definition no_header : jsstring -> option jsstring := fun _ => None.

Definition page (body : jsstring) : Response :=
  {| ok := true; headers_get := no_header; text := Some body;
     json := None |}.

Definition not_found : Response :=
  {| ok := false; headers_get := no_header; text := Some [];
     json := None |}.

(** A server that is down. *)
Definition offline : Request -> Settled := fun _ => Rejected.

(** A server that answers every request with success and an empty
    body. *)
Definition generous : Request -> Settled := fun _ => Fulfilled (page []).

(** A server with one document at [url]. *)
Definition serving (url body : jsstring) : Request -> Settled :=
  fun req =>
    if streq (target req) url then Fulfilled (page body)
    else Fulfilled not_found.

(** A document whose [last-modified] header is empty. *)
Definition dated (body : jsstring) : Response :=
  {| ok := true;
     headers_get := fun h =>
       if streq h (js "last-modified") then Some []
       else if streq h (js "date")
       then Some (js "Tue, 02 Jan 2024 10:00:00 GMT")
       else None;
     text := Some body; json := None |}.

Definition start : @Sys Z unit := boot 0.

(** The record of the scenarios of section 8, with a given
    fingerprint. *)
Definition ch1 (fingerprint : jsstring) : FileRecord :=
  {| name := js "ch1"; url := js "/docs/ch1.xml";
     checksum := fingerprint; lastModified := js "t1"; size := 10 |}.

(** The index body of scenario 5 of section 8. *)
Definition two_chapters : jsstring :=
  js "chapter-1.xml" ++ [10%N] ++ js "chapter-2.xml" ++ [10%N].

(** A server with two index files. *)
Definition two_indexes : Request -> Settled :=
  fun req =>
    if streq (target req) (js "/docs/index.txt")
    then Fulfilled (page (js "a.xml"))
    else if streq (target req) (js "/docs/files.txt")
    then Fulfilled (page (js "b.xml"))
    else Fulfilled not_found.

(** A scanner that retains the snapshot [l]. *)
Definition retaining (l : list FileRecord) : @Sys Z unit :=
  {| self := set_lastScanResults l constructor; world := 0;
     exchanges := [] |}.

End Sample.

(** ** Vocabulary of the further properties *)

(** The two requests the scanner sends: [fetch(url, { method: 'HEAD' })]
    and [fetch(url)]. *)
Definition head_of (url : jsstring) : Request :=
  {| method := HEAD; target := url |}.

Definition get_of (url : jsstring) : Request :=
  {| method := GET; target := url |}.

(** The accumulator of [generateChecksum] after the code units of
    [content], started from [hash]. *)
Definition hash_from (hash : Z) (content : jsstring) : Z :=
  fold_left (fun hash code => toInt32 (hash * 31 + Z.of_N code)) content hash.



(** The names [tryPatternScanning] probes, in the order of its loops: for
    each number the patterns with the number plain and padded, then the
    common names. *)
Definition numbered (i : Z) (pattern : jsstring) : list jsstring :=
  [pattern ++ toString 10 i; pattern ++ padStart2 (toString 10 i)].

Definition pattern_candidates : list jsstring :=
  flat_map (fun i => flat_map (numbered i) commonPatterns) (seqZ 1 maxChecks)
  ++ commonNames.

Section PatternDefs.
Context {World Callback : Type} {env : Collaborators World Callback}.
(** The probe of one candidate name. *)
Definition probe_candidate (basePath : jsstring) (foundFiles : list jsstring)
    (name : jsstring) : @M World Callback (list jsstring) :=
  bind (testFileExists (basePath ++ name ++ js ".xml"))
    (fun e => ret (if e : bool then foundFiles ++ [name] else foundFiles)).
End PatternDefs.

(** What every record of a snapshot looks like. *)
Definition well_formed_record (basePath : jsstring) (f : FileRecord) : Prop :=
  url f = basePath ++ name f ++ js ".xml" ∧
  exists content,
    checksum f = generateChecksum content ∧ size f = strlen content.

(** A string with no white space at either end. *)
Definition trimmed (n : jsstring) : Prop :=
  (forall c, head n = Some c -> is_space c = false) ∧
  (forall c, last n = Some c -> is_space c = false).

(** A modified entry seen from the other side. *)
Definition mirror (e : ModifiedEntry) : ModifiedEntry :=
  {| m_name := m_name e; previous := current e; current := previous e;
     changes := changes e |}.

(** ** More sample worlds *)

Module Servers.
(** A world whose clock advances by [step] milliseconds at each reading. *)
Definition paced (step : Z) (respond : Request -> Settled)
    : Collaborators Z unit :=
  {| fetch := fun req w => (respond req, w);
     Date_now := fun w => (w, w + step);
     Date_toISOString := fun w => (js "2024-01-01T00:00:00.000Z", w);
     xml_hrefs := fun _ => None;
     invoke := fun _ _ w => (true, w) |}.

(** A server whose one document changes at every request: its body is the
    number of requests served so far.  A world is that number; the clock
    shows it too. *)
Definition changing (url : jsstring) : Collaborators Z unit :=
  {| fetch := fun req w =>
       (if streq (target req) url
        then Fulfilled (Sample.page (toString 10 w))
        else Fulfilled Sample.not_found,
        w + 1);
     Date_now := fun w => (w, w);
     Date_toISOString := fun w => (js "2024-01-01T00:00:00.000Z", w);
     xml_hrefs := fun _ => None;
     invoke := fun _ _ w => (true, w) |}.
End Servers.

Set Warnings "-clear-no-such-hyp".

(** * Properties *)

(** ** Numbers *)

Section Int32.

Lemma toInt32_range z : - 2 ^ 31 <= toInt32 z < 2 ^ 31.
Proof.
  unfold toInt32.
  pose proof (Z.mod_pos_bound z (2 ^ 32) ltac:(lia)) as Hm.
  destruct (Z.ltb_spec (z mod 2 ^ 32) (2 ^ 31)); lia.
Qed.

Lemma toInt32_periodic z k : toInt32 (z + k * 2 ^ 32) = toInt32 z.
Proof. unfold toInt32. now rewrite Z_mod_plus_full. Qed.

Lemma toInt32_shift z : exists k, toInt32 z = z + k * 2 ^ 32.
Proof.
  unfold toInt32.
  pose proof (Z.div_mod z (2 ^ 32) ltac:(lia)) as Hd.
  destruct (Z.ltb_spec (z mod 2 ^ 32) (2 ^ 31)).
  - exists (- (z / 2 ^ 32)). lia.
  - exists (- (z / 2 ^ 32) - 1). lia.
Qed.

Lemma toInt32_idem z : toInt32 (toInt32 z) = toInt32 z.
Proof.
  destruct (toInt32_shift z) as [k Hk]. rewrite Hk at 1.
  apply toInt32_periodic.
Qed.

Lemma toInt32_small z : - 2 ^ 31 <= z < 2 ^ 31 -> toInt32 z = z.
Proof.
  intros Hz. unfold toInt32.
  destruct (Z.neg_nonneg_cases z) as [Hneg | Hpos].
  - replace (z mod 2 ^ 32) with (z + 2 ^ 32).
    + destruct (Z.ltb_spec (z + 2 ^ 32) (2 ^ 31)); lia.
    + apply Z.mod_unique with (q := -1); lia.
  - rewrite Z.mod_small by lia.
    destruct (Z.ltb_spec z (2 ^ 31)); lia.
Qed.

Lemma band_diag z : band z z = toInt32 z.
Proof. unfold band. now rewrite Z.land_diag, toInt32_idem. Qed.

Lemma shl_5 z : exists k, shl z 5 = z * 32 + k * 2 ^ 32.
Proof.
  unfold shl. change (Z.land 5 31) with 5.
  rewrite Z.shiftl_mul_pow2 by lia. change (2 ^ 5) with 32.
  destruct (toInt32_shift z) as [k1 ->].
  destruct (toInt32_shift ((z + k1 * 2 ^ 32) * 32)) as [k2 ->].
  exists (32 * k1 + k2). lia.
Qed.

(** One round of the loop of [generateChecksum] multiplies by 31 and adds
    the code unit, in 32-bit signed arithmetic. *)
Lemma checksum_round hash char :
  band (shl hash 5 - hash + char) (shl hash 5 - hash + char)
  = toInt32 (hash * 31 + char).
Proof.
  rewrite band_diag. destruct (shl_5 hash) as [k ->].
  replace (hash * 32 + k * 2 ^ 32 - hash + char)
    with (hash * 31 + char + k * 2 ^ 32) by lia.
  apply toInt32_periodic.
Qed.

(** The intermediate value of a round stays far inside the range in which
    a double holds integers exactly, so that the integer reading of
    [-] and [+] is the one of the source. *)
Lemma checksum_round_exact hash char :
  - 2 ^ 31 <= hash < 2 ^ 31 -> 0 <= char < 2 ^ 16 ->
  - 2 ^ 53 < shl hash 5 - hash + char < 2 ^ 53.
Proof.
  intros Hh Hc. unfold shl.
  pose proof (toInt32_range (Z.shiftl (toInt32 hash) (Z.land 5 31))).
  lia.
Qed.

End Int32.

(** ** Rendering in a radix *)

Section Radix.

Lemma digit_value_char d : 0 <= d < 36 -> digit_value (digit_char d) = d.
Proof.
  intros Hd. unfold digit_value, digit_char.
  destruct (Z.ltb_spec d 10).
  - destruct (N.ltb_spec (Z.to_N (48 + d)) 58); lia.
  - destruct (N.ltb_spec (Z.to_N (87 + d)) 58); lia.
Qed.

Lemma digits_from_value fuel : forall radix n acc,
  2 <= radix <= 36 -> 0 <= n < 2 ^ Z.of_nat fuel ->
  fold_left (fun a c => a * radix + digit_value c)
    (digits_from fuel radix n acc) 0
  = fold_left (fun a c => a * radix + digit_value c) acc n.
Proof.
  induction fuel as [|fuel IH]; intros radix n acc Hr Hn.
  - simpl in *. replace n with 0 by lia. reflexivity.
  - cbn [digits_from].
    pose proof (Z.mod_pos_bound n radix ltac:(lia)) as Hm.
    pose proof (Z.div_mod n radix ltac:(lia)) as Hd.
    destruct (Z.eqb_spec (n / radix) 0) as [Hq | Hq].
    + cbn [fold_left]. rewrite digit_value_char by lia.
      f_equal. lia.
    + rewrite IH; [| lia |].
      * cbn [fold_left]. rewrite digit_value_char by lia.
        f_equal. lia.
      * split; [apply Z.div_pos; lia |].
        apply Z.div_lt_upper_bound; [lia |].
        rewrite Nat2Z.inj_succ, Z.pow_succ_r in Hn by lia. nia.
Qed.

(** No digit is lost: the digits of [n] read back as [n]. *)
Lemma digits_value_digits radix n :
  2 <= radix <= 36 -> 0 <= n -> digits_value radix (digits radix n) = n.
Proof.
  intros Hr Hn. unfold digits_value, digits.
  rewrite digits_from_value; [reflexivity | assumption |].
  split; [assumption |].
  rewrite Nat2Z.inj_succ, Z2Nat.id by apply Z.log2_nonneg.
  destruct (Z.eq_dec n 0) as [-> | Hne]; [reflexivity |].
  apply Z.log2_spec. lia.
Qed.

Lemma digits_not_minus fuel : forall radix n acc,
  2 <= radix <= 36 -> 0 <= n ->
  hd_error (digits_from (S fuel) radix n acc) <> Some 45%N.
Proof.
  induction fuel as [|fuel IH]; intros radix n acc Hr Hn.
  - cbn [digits_from].
    pose proof (Z.mod_pos_bound n radix ltac:(lia)) as Hm.
    assert (digit_char (n mod radix) <> 45%N) as Hc.
    { unfold digit_char. destruct (Z.ltb_spec (n mod radix) 10); lia. }
    destruct (n / radix =? 0); cbn; congruence.
  - cbn [digits_from].
    pose proof (Z.mod_pos_bound n radix ltac:(lia)) as Hm.
    assert (digit_char (n mod radix) <> 45%N) as Hc.
    { unfold digit_char. destruct (Z.ltb_spec (n mod radix) 10); lia. }
    destruct (n / radix =? 0).
    + cbn; congruence.
    + apply IH; [assumption | apply Z.div_pos; lia].
Qed.

Lemma numeral_value_unsigned radix c s :
  c <> 45%N -> numeral_value radix (c :: s) = digits_value radix (c :: s).
Proof.
  intros Hc. unfold numeral_value.
  destruct c as [|p]; [reflexivity |].
  do 6 (destruct p as [p|p|]; try reflexivity).
  now destruct Hc.
Qed.

(** [toString] is faithful: the numeral reads back as the number. *)
Lemma numeral_value_toString radix n :
  2 <= radix <= 36 -> numeral_value radix (toString radix n) = n.
Proof.
  intros Hr. unfold toString.
  destruct (Z.ltb_spec n 0) as [Hneg | Hpos].
  - cbn [numeral_value]. rewrite digits_value_digits by lia. lia.
  - pose proof (digits_not_minus (Z.to_nat (Z.log2 n)) radix n [] Hr Hpos)
      as Hhd.
    fold (digits radix n) in Hhd.
    rewrite <- (digits_value_digits radix n) at 2 by lia.
    destruct (digits radix n) as [|c s]; [reflexivity |].
    apply numeral_value_unsigned. cbn in Hhd. congruence.
Qed.

End Radix.

(** ** The fingerprint *)

Section Fingerprint.

Lemma fold_left_pointwise {A B} (f g : A -> B -> A) :
  (forall a b, f a b = g a b) ->
  forall l a, fold_left f l a = fold_left g l a.
Proof.
  intros Hfg. induction l as [|b l IH]; intros a; cbn [fold_left].
  - reflexivity.
  - now rewrite Hfg, IH.
Qed.

(** Every value the accumulator takes is a 32-bit signed integer. *)
Lemma checksum_accumulator_range content :
  - 2 ^ 31 <=
    fold_left (fun hash code => toInt32 (hash * 31 + Z.of_N code)) content 0
    < 2 ^ 31.
Proof.
  assert (H : forall h, - 2 ^ 31 <= h < 2 ^ 31 ->
    - 2 ^ 31 <=
      fold_left (fun hash code => toInt32 (hash * 31 + Z.of_N code)) content h
      < 2 ^ 31).
  { induction content as [|c content IH]; intros h Hh; cbn [fold_left].
    - exact Hh.
    - apply IH, toInt32_range. }
  apply H. lia.
Qed.

(** C3, as amended.  For every content string, [generateChecksum] returns
    the base-36 rendering of the accumulator that starts from 0 and, for
    each UTF-16 code unit of the string in order, becomes
    [(hash << 5) - hash + code], which is [hash * 32 - hash + code], that
    is [hash * 31 + code], reduced to a 32-bit signed integer. *)
Theorem generateChecksum_times_31 content :
  generateChecksum content
  = toString 36
      (fold_left (fun hash code => toInt32 (hash * 31 + Z.of_N code))
         content 0)
  ∧ generateChecksum content
    = toString 36
        (fold_left
           (fun hash code => toInt32 ((hash * 32 - hash) + Z.of_N code))
           content 0).
Proof.
  unfold generateChecksum. split; f_equal.
  - apply fold_left_pointwise. intros hash code. apply checksum_round.
  - apply fold_left_pointwise. intros hash code.
    rewrite checksum_round. f_equal. lia.
Qed.

(** C3, as worded: on the string [ab] the accumulation
    [(hash*31 - hash) + code] gives 3008, rendered [2bk], while
    [generateChecksum] computes 3105 and returns [2e9]. *)
Lemma generateChecksum_not_as_worded :
  generateChecksum (js "ab") = js "2e9" ∧
  fingerprint_as_worded (js "ab") = js "2bk" ∧
  generateChecksum (js "ab") ≠ fingerprint_as_worded (js "ab").
Proof. vm_compute. repeat split. discriminate. Qed.

Example generateChecksum_empty : generateChecksum [] = js "0".
Proof. reflexivity. Qed.

Example generateChecksum_abc : generateChecksum (js "abc") = js "22ci".
Proof. vm_compute. reflexivity. Qed.

Example generateChecksum_abd : generateChecksum (js "abd") = js "22cj".
Proof. vm_compute. reflexivity. Qed.

Example generateChecksum_negative :
  generateChecksum (js "scanner.js") = js "-5i0ipz".
Proof. vm_compute. reflexivity. Qed.

End Fingerprint.

(** ** Strings and logical names *)

Section Names.

Implicit Types (s g ext pre line : jsstring) (c : N).

Lemma xml_at_end_length ext : Regex.xml_at_end ext = true -> length ext = 4%nat.
Proof.
  destruct ext as [|? [|? [|? [|? [|? ?]]]]]; cbn; congruence.
Qed.

Lemma group_then_xml_sound s g :
  Regex.group_then_xml s = Some g ->
  exists ext,
    s = g ++ ext ∧ Regex.xml_at_end ext = true ∧ g ≠ [] ∧ 47%N ∉ g.
Proof.
  revert g. induction s as [|c s IH]; intros g; cbn [Regex.group_then_xml];
    [discriminate |].
  destruct (N.eqb_spec c 47%N) as [| Hc]; [discriminate |].
  destruct (Regex.xml_at_end s) eqn:Hend.
  - intros [= <-]. exists s. repeat split; [exact Hend | discriminate |].
    intros H%list_elem_of_singleton. congruence.
  - destruct (Regex.group_then_xml s) as [g' |]; [| discriminate].
    intros [= <-]. destruct (IH g' eq_refl) as (ext & -> & He & _ & Hg).
    exists ext. repeat split; [exact He | discriminate |].
    rewrite elem_of_cons. intros [? | ?]; [congruence | contradiction].
Qed.

Lemma group_then_xml_complete g ext :
  g ≠ [] -> 47%N ∉ g -> Regex.xml_at_end ext = true ->
  Regex.group_then_xml (g ++ ext) = Some g.
Proof.
  intros Hne Hg Hext. induction g as [|c g IH]; [now destruct Hne |].
  cbn [Regex.group_then_xml app].
  apply not_elem_of_cons in Hg as [Hc Hg].
  destruct (N.eqb_spec c 47%N) as [| _]; [congruence |].
  destruct (Regex.xml_at_end (g ++ ext)) eqn:Hend.
  - apply xml_at_end_length in Hend, Hext.
    rewrite length_app in Hend.
    destruct g; [reflexivity | cbn in Hend; lia].
  - destruct g as [|c' g].
    + cbn in Hend. congruence.
    + now rewrite IH.
Qed.

Lemma match_xml_sound s g :
  Regex.match_xml s = Some g ->
  exists dir ext,
    s = dir ++ g ++ ext ∧ Regex.xml_at_end ext = true ∧ g ≠ [] ∧
    47%N ∉ g.
Proof.
  induction s as [|c s IH]; cbn [Regex.match_xml].
  - cbn. discriminate.
  - destruct (Regex.group_then_xml (c :: s)) as [g' |] eqn:E.
    + intros [= ->]. apply group_then_xml_sound in E as (ext & -> & ?).
      now exists [], ext.
    + intros H. destruct (IH H) as (dir & ext & -> & ?).
      now exists (c :: dir), ext.
Qed.

(** Where the group may not start: inside a directory part. *)
Lemma group_then_xml_directory dir g ext :
  dir ≠ [] -> last dir = Some 47%N -> Regex.xml_at_end ext = true ->
  Regex.group_then_xml (dir ++ g ++ ext) = None.
Proof.
  intros Hne Hlast Hext.
  destruct (Regex.group_then_xml (dir ++ g ++ ext)) as [g' |] eqn:E;
    [| reflexivity].
  apply group_then_xml_sound in E as (ext' & Heq & Hext' & _ & Hg').
  apply xml_at_end_length in Hext, Hext'.
  rewrite app_assoc in Heq.
  apply app_inj_2 in Heq as [<- _]; [| congruence].
  destruct Hg'. apply elem_of_app. left.
  apply last_Some in Hlast as [dir' ->].
  apply elem_of_app. right. left.
Qed.

Lemma match_xml_complete dir g ext :
  (dir = [] ∨ last dir = Some 47%N) ->
  g ≠ [] -> 47%N ∉ g -> Regex.xml_at_end ext = true ->
  Regex.match_xml (dir ++ g ++ ext) = Some g.
Proof.
  intros Hdir Hne Hg Hext.
  induction dir as [|c dir IH].
  - cbn [app]. destruct g as [|c g]; [now destruct Hne |].
    cbn [Regex.match_xml app].
    change (c :: g ++ ext) with ((c :: g) ++ ext).
    now rewrite group_then_xml_complete.
  - destruct Hdir as [| Hlast]; [discriminate |].
    cbn [Regex.match_xml app].
    change (c :: dir ++ g ++ ext) with ((c :: dir) ++ g ++ ext).
    rewrite group_then_xml_directory by (try discriminate; assumption).
    apply IH. destruct dir as [|c' dir]; [now left | right].
    exact Hlast.
Qed.

Lemma after_last_slash_free s : 47%N ∉ after_last_slash s.
Proof.
  induction s as [|c s IH]; cbn [after_last_slash].
  - apply not_elem_of_nil.
  - case_bool_decide; assumption.
Qed.

Lemma after_last_slash_split s :
  exists dir,
    s = dir ++ after_last_slash s ∧ (dir = [] ∨ last dir = Some 47%N).
Proof.
  induction s as [|c s (dir & Hs & Hdir)]; cbn [after_last_slash].
  - exists []. split; [reflexivity | now left].
  - case_bool_decide as Hin.
    + exists (c :: dir). split; [cbn; congruence |]. right.
      destruct Hdir as [-> | Hlast].
      * cbn in Hs. rewrite Hs in Hin.
        apply elem_of_cons in Hin as [<- | Hin]; [reflexivity |].
        now apply after_last_slash_free in Hin.
      * destruct dir; [discriminate | exact Hlast].
    + exists []. split; [reflexivity | now left].
Qed.

Lemma after_last_slash_nonempty pre c :
  c ≠ 47%N -> after_last_slash (pre ++ [c]) ≠ [].
Proof.
  intros Hc E.
  destruct (after_last_slash_split (pre ++ [c])) as (dir & Hs & Hdir).
  rewrite E, app_nil_r in Hs. subst dir.
  destruct Hdir as [Hnil | Hlast].
  - now destruct pre.
  - rewrite last_snoc in Hlast. congruence.
Qed.

(** A line that ends in the extension, with something other than a
    slash before it, names the segment after its last slash. *)
Lemma extract_name_segment pre c ext :
  Regex.xml_at_end ext = true -> c ≠ 47%N ->
  extract_name (pre ++ c :: ext) = after_last_slash (pre ++ [c]).
Proof.
  intros Hext Hc. unfold extract_name.
  destruct (after_last_slash_split (pre ++ [c])) as (dir & Hs & Hdir).
  replace (pre ++ c :: ext)
    with (dir ++ after_last_slash (pre ++ [c]) ++ ext).
  - rewrite match_xml_complete;
      auto using after_last_slash_nonempty, after_last_slash_free.
  - rewrite app_assoc, <- Hs, <- app_assoc. reflexivity.
Qed.

(** Any other line loses its first [.xml]. *)
Lemma extract_name_fallback line :
  (forall pre c ext,
     line = pre ++ c :: ext -> Regex.xml_at_end ext = true -> c = 47%N) ->
  extract_name line = remove_first line (js ".xml").
Proof.
  intros Hline. unfold extract_name.
  destruct (Regex.match_xml line) as [g|] eqn:E; [| reflexivity].
  apply match_xml_sound in E as (dir & ext & -> & Hext & Hne & Hg).
  destruct (exists_last Hne) as (g' & c & ->).
  destruct Hg. rewrite (Hline (dir ++ g') c ext); [| | exact Hext].
  - apply elem_of_app. right. left.
  - now rewrite <- !app_assoc.
Qed.

Lemma startsWith_spec s p :
  startsWith s p = true <-> exists post, s = p ++ post.
Proof.
  revert s. induction p as [|c p IH]; intros s; cbn [startsWith].
  - split; [intros _; now exists s | reflexivity].
  - destruct s as [|d s]; [split; [discriminate | now intros [? ?]] |].
    destruct (N.eqb_spec c d) as [-> | Hne].
    + rewrite IH. split; intros [post E]; exists post; cbn in *; congruence.
    + split; [discriminate | intros [post E]; cbn in E; congruence].
Qed.

Lemma includes_spec s p :
  includes s p = true <-> exists pre post, s = pre ++ p ++ post.
Proof.
  induction s as [|c s IH]; cbn [includes].
  - rewrite orb_false_r, startsWith_spec. split.
    + intros [post E]. now exists [], post.
    + intros (pre & post & E). exists post.
      destruct pre; [exact E | discriminate].
  - rewrite orb_true_iff, startsWith_spec, IH. split.
    + intros [[post E] | (pre & post & E)].
      * now exists [], post.
      * exists (c :: pre), post. cbn. congruence.
    + intros (pre & post & E). destruct pre as [|d pre].
      * left. now exists post.
      * right. exists pre, post. cbn in E. congruence.
Qed.

Lemma endsWith_spec s p :
  endsWith s p = true <-> exists pre, s = pre ++ p.
Proof.
  unfold endsWith. rewrite startsWith_spec. split.
  - intros [post E]. exists (rev post).
    rewrite <- (rev_involutive s), E, rev_app_distr.
    now rewrite rev_involutive.
  - intros [pre ->]. exists (rev pre). apply rev_app_distr.
Qed.

Lemma endsWith_includes s p : endsWith s p = true -> includes s p = true.
Proof.
  rewrite endsWith_spec, includes_spec. intros [pre ->].
  exists pre, []. now rewrite app_nil_r.
Qed.

(** The names of an index body: one for each line that mentions [.xml],
    trimmed, unless the name comes out empty. *)
Lemma elem_of_index_names body n :
  n ∈ index_names body
  <-> exists line,
        line ∈ split_lines body ∧
        includes (trim line) (js ".xml") = true ∧
        n = extract_name (trim line) ∧ n ≠ [].
Proof.
  unfold index_names.
  rewrite list_elem_of_In, filter_In, in_map_iff. split.
  - intros [[line' [<- Hin]] Hlen].
    apply filter_In in Hin as [Hin Hkeep].
    apply in_map_iff in Hin as [line [<- Hin]].
    exists line. repeat split.
    + now apply list_elem_of_In.
    + apply andb_true_iff in Hkeep as [_ Hkeep].
      apply orb_true_iff in Hkeep as [H | H]; [| exact H].
      now apply endsWith_includes.
    + intros E. rewrite E in Hlen. discriminate.
  - intros (line & Hin & Hinc & -> & Hne). split.
    + exists (trim line). split; [reflexivity |].
      apply filter_In. split.
      * apply in_map, list_elem_of_In, Hin.
      * rewrite Hinc, orb_true_r, andb_true_r.
        destruct (trim line); [discriminate | reflexivity].
    + unfold strlen. destruct (extract_name (trim line));
        [now destruct Hne | reflexivity].
Qed.

End Names.

(** ** Insertion-ordered maps and the two snapshots *)

Section Maps.
Context {V : Type}.
Implicit Types (m : JsMap.t V) (k : jsstring) (v : V).

Lemma streq_true a b : streq a b = true <-> a = b.
Proof. unfold streq. apply bool_decide_eq_true. Qed.

Lemma get_set m k v k' :
  JsMap.get (JsMap.set m k v) k'
  = if streq k k' then Some v else JsMap.get m k'.
Proof.
  induction m as [|[k0 v0] m IH]; cbn.
  - reflexivity.
  - destruct (streq k0 k) eqn:E0; cbn.
    + apply streq_true in E0; subst k0. now destruct (streq k k').
    + rewrite IH. unfold streq in *.
      repeat case_bool_decide; congruence.
Qed.

Lemma keys_set m k v :
  JsMap.keys (JsMap.set m k v)
  = if JsMap.has m k then JsMap.keys m else JsMap.keys m ++ [k].
Proof.
  unfold JsMap.has, JsMap.keys.
  induction m as [|[k0 v0] m IH]; cbn.
  - reflexivity.
  - destruct (streq k0 k) eqn:E0; cbn; [reflexivity |].
    rewrite IH. now destruct (JsMap.get m k).
Qed.

Lemma has_keys m k : JsMap.has m k = true <-> k ∈ JsMap.keys m.
Proof.
  unfold JsMap.has, JsMap.keys.
  induction m as [|[k0 v0] m IH]; cbn.
  - split; [discriminate | intros H; inversion H].
  - rewrite elem_of_cons, <- IH. unfold streq.
    case_bool_decide; naive_solver.
Qed.

Lemma get_elem m k v : JsMap.get m k = Some v -> (k, v) ∈ m.
Proof.
  induction m as [|[k0 v0] m IH]; cbn; [discriminate |].
  destruct (streq k0 k) eqn:E0.
  - apply streq_true in E0; subst k0. intros [= ->]. left.
  - intros H. right. auto.
Qed.

Lemma elem_get m k v :
  NoDup (JsMap.keys m) -> (k, v) ∈ m -> JsMap.get m k = Some v.
Proof.
  unfold JsMap.keys.
  induction m as [|[k0 v0] m IH]; cbn; intros Hnd Hin.
  - inversion Hin.
  - apply NoDup_cons in Hnd as [Hk0 Hnd].
    apply elem_of_cons in Hin as [[= -> ->] | Hin].
    + unfold streq. now rewrite bool_decide_eq_true_2.
    + unfold streq. case_bool_decide as E; [| auto].
      subst k0. destruct Hk0.
      change k with (fst (k, v)). now apply list_elem_of_fmap_2.
Qed.

Lemma NoDup_keys_set m k v :
  NoDup (JsMap.keys m) -> NoDup (JsMap.keys (JsMap.set m k v)).
Proof.
  intros Hnd. rewrite keys_set. destruct (JsMap.has m k) eqn:E; [exact Hnd |].
  apply NoDup_app. split; [exact Hnd |]. split; [| apply NoDup_singleton].
  intros x Hx Hx'. apply list_elem_of_singleton in Hx' as ->.
  apply has_keys in Hx. congruence.
Qed.

End Maps.

Section Snapshots.

Implicit Types (l prev cur : list FileRecord) (n k : jsstring).

Lemma build_map_snoc l f :
  build_map (l ++ [f]) = JsMap.set (build_map l) (name f) f.
Proof. unfold build_map. now rewrite fold_left_app. Qed.

Lemma build_map_NoDup l : NoDup (JsMap.keys (build_map l)).
Proof.
  induction l as [|f l IH] using rev_ind.
  - apply NoDup_nil_2.
  - rewrite build_map_snoc. now apply NoDup_keys_set.
Qed.

Lemma build_map_keys l n :
  n ∈ JsMap.keys (build_map l) <-> n ∈ map name l.
Proof.
  induction l as [|f l IH] using rev_ind.
  - reflexivity.
  - rewrite build_map_snoc, keys_set, map_app, elem_of_app. cbn [map].
    rewrite list_elem_of_singleton, <- IH.
    destruct (JsMap.has (build_map l) (name f)) eqn:E.
    + apply has_keys in E. split; [tauto | intros [H | ->]; assumption].
    + now rewrite elem_of_app, list_elem_of_singleton.
Qed.

Lemma build_map_get l n f :
  JsMap.get (build_map l) n = Some f -> f ∈ l /\ name f = n.
Proof.
  induction l as [|f' l IH] using rev_ind.
  - discriminate.
  - rewrite build_map_snoc, get_set, elem_of_app, list_elem_of_singleton.
    destruct (streq (name f') n) eqn:E.
    + apply streq_true in E. intros [= ->]. tauto.
    + intros H. apply IH in H. tauto.
Qed.

(** For each name the map holds the last record of that name. *)
Lemma build_map_last l n :
  JsMap.get (build_map l) n
  = last (List.filter (fun f => streq (name f) n) l).
Proof.
  induction l as [|f l IH] using rev_ind.
  - reflexivity.
  - rewrite build_map_snoc, get_set, List.filter_app. cbn [List.filter].
    destruct (streq (name f) n).
    + now rewrite last_snoc.
    + now rewrite app_nil_r.
Qed.

(** It is the record of that name as [record_named] reads it off the
    snapshot. *)
Lemma build_map_record_named l n :
  JsMap.get (build_map l) n = record_named n l.
Proof. apply build_map_last. Qed.

Lemma record_named_Some n l :
  n ∈ map name l -> exists f, record_named n l = Some f.
Proof.
  intros H. rewrite <- build_map_record_named.
  apply build_map_keys, has_keys in H. unfold JsMap.has in H.
  destruct (JsMap.get (build_map l) n) as [f |]; [eauto | discriminate].
Qed.

Lemma build_map_entry l k f :
  (k, f) ∈ build_map l -> name f = k.
Proof.
  intros H. apply elem_get in H; [| apply build_map_NoDup].
  now apply build_map_get in H.
Qed.

Lemma has_build_map l n :
  JsMap.has (build_map l) n = true <-> n ∈ map name l.
Proof. now rewrite has_keys, build_map_keys. Qed.

End Snapshots.

Section Loops.

Implicit Types (c : ChangeReport) (m pm cm : JsMap.t FileRecord).

Lemma fold_check_added pm : forall m c,
  fold_left (check_added pm) m c
  = {| hasChanges := hasChanges c || nonempty (only_in m pm);
       added := added c ++ only_in m pm;
       removed := removed c; modified := modified c;
       unchanged := unchanged c; allFiles := allFiles c |}.
Proof.
  unfold only_in.
  induction m as [|[k f] m IH]; intros c; cbn [fold_left List.filter map].
  - destruct c; cbn. now rewrite orb_false_r, app_nil_r.
  - rewrite IH. unfold check_added. cbn [fst].
    destruct (negb (JsMap.has pm k)); cbn.
    + now rewrite orb_true_r, <- app_assoc.
    + reflexivity.
Qed.

Lemma fold_check_removed cm : forall m c,
  fold_left (check_removed cm) m c
  = {| hasChanges := hasChanges c || nonempty (only_in m cm);
       added := added c;
       removed := removed c ++ only_in m cm; modified := modified c;
       unchanged := unchanged c; allFiles := allFiles c |}.
Proof.
  unfold only_in.
  induction m as [|[k f] m IH]; intros c; cbn [fold_left List.filter map].
  - destruct c; cbn. now rewrite orb_false_r, app_nil_r.
  - rewrite IH. unfold check_removed. cbn [fst].
    destruct (negb (JsMap.has cm k)); cbn.
    + now rewrite orb_true_r, <- app_assoc.
    + reflexivity.
Qed.

Lemma fold_check_modified pm : forall m c,
  fold_left (check_modified pm) m c
  = {| hasChanges := hasChanges c || nonempty (omap (modified_of pm) m);
       added := added c; removed := removed c;
       modified := modified c ++ omap (modified_of pm) m;
       unchanged := unchanged c ++ omap (unchanged_of pm) m;
       allFiles := allFiles c |}.
Proof.
  induction m as [|[k f] m IH]; intros c; cbn [fold_left omap list_omap].
  - destruct c; cbn. now rewrite orb_false_r, !app_nil_r.
  - rewrite IH. unfold check_modified, modified_of, unchanged_of.
    cbn [fst snd]. fold (differb f).
    destruct (JsMap.get pm k) as [p|]; [| reflexivity].
    unfold differb.
    destruct (strict_ne_str (checksum f) (checksum p) ||
              strict_ne_str (lastModified f) (lastModified p) ||
              strict_ne_num (size f) (size p)); cbn.
    + now rewrite orb_true_r, <- app_assoc.
    + now rewrite <- app_assoc.
Qed.

(** The report in closed form. *)
Lemma diff_snapshots_eq prev cur :
  diff_snapshots prev cur
  = let cm := build_map cur in
    let pm := build_map prev in
    {| hasChanges :=
         nonempty (only_in cm pm) || nonempty (only_in pm cm) ||
         nonempty (omap (modified_of pm) cm);
       added := only_in cm pm;
       removed := only_in pm cm;
       modified := omap (modified_of pm) cm;
       unchanged := omap (unchanged_of pm) cm;
       allFiles := map name cur |}.
Proof.
  unfold diff_snapshots.
  now rewrite fold_check_added, fold_check_removed, fold_check_modified.
Qed.

End Loops.

Section Membership.

Implicit Types (prev cur l : list FileRecord) (n : jsstring).

Lemma strict_ne_str_true a b : strict_ne_str a b = true <-> a ≠ b.
Proof.
  unfold strict_ne_str, streq. rewrite negb_true_iff.
  apply bool_decide_eq_false.
Qed.

Lemma strict_ne_num_true a b : strict_ne_num a b = true <-> a ≠ b.
Proof.
  unfold strict_ne_num. rewrite negb_true_iff. apply Z.eqb_neq.
Qed.

Lemma differb_true c p : differb c p = true <-> differs c p.
Proof.
  unfold differb, differs.
  rewrite !orb_true_iff, !strict_ne_str_true, strict_ne_num_true. tauto.
Qed.

Lemma differb_false c p : differb c p = false <-> ¬ differs c p.
Proof.
  rewrite <- differb_true. now destruct (differb c p).
Qed.

Lemma elem_of_names l n : n ∈ names l <-> n ∈ map name l.
Proof. unfold names. apply elem_of_list_to_set. Qed.

Lemma names_get l n :
  n ∈ names l <-> exists f, JsMap.get (build_map l) n = Some f.
Proof.
  rewrite elem_of_names, <- has_build_map. unfold JsMap.has.
  destruct (JsMap.get (build_map l) n) as [f|].
  - split; [eauto | reflexivity].
  - split; [discriminate | now intros [f ?]].
Qed.

Lemma not_names_has l n :
  n ∉ names l <-> negb (JsMap.has (build_map l) n) = true.
Proof.
  rewrite elem_of_names, <- has_build_map, negb_true_iff.
  now destruct (JsMap.has (build_map l) n).
Qed.

Lemma elem_of_only_in l l' f :
  f ∈ only_in (build_map l) (build_map l')
  <-> JsMap.get (build_map l) (name f) = Some f /\ name f ∉ names l'.
Proof.
  unfold only_in. rewrite list_elem_of_In, in_map_iff. split.
  - intros [[k f'] [Hf Hin]]. cbn in Hf. subst f'.
    apply filter_In in Hin as [Hin Hk]. cbn in Hk.
    apply list_elem_of_In in Hin.
    pose proof (build_map_entry _ _ _ Hin) as <-.
    split; [apply elem_get; [apply build_map_NoDup | exact Hin] |].
    now apply not_names_has.
  - intros [Hget Hn]. exists (name f, f). split; [reflexivity |].
    apply filter_In. split.
    + apply list_elem_of_In. now apply get_elem.
    + now apply not_names_has.
Qed.

Lemma names_only_in l l' :
  names (only_in (build_map l) (build_map l')) = names l ∖ names l'.
Proof.
  apply set_eq. intros n.
  rewrite elem_of_difference, elem_of_names, list_elem_of_In, in_map_iff.
  split.
  - intros [f [<- Hf]]. apply list_elem_of_In, elem_of_only_in in Hf as [Hg Hn].
    split; [apply names_get; eauto | exact Hn].
  - intros [Hin Hn]. apply names_get in Hin as [f Hf].
    pose proof (build_map_get _ _ _ Hf) as [_ Hname].
    exists f. split; [exact Hname |].
    apply list_elem_of_In, elem_of_only_in. now rewrite Hname.
Qed.

Lemma elem_of_modified prev cur e :
  e ∈ omap (modified_of (build_map prev)) (build_map cur)
  <-> exists p c,
        JsMap.get (build_map prev) (m_name e) = Some p /\
        JsMap.get (build_map cur) (m_name e) = Some c /\
        differs c p /\ e = entry_of (m_name e) p c.
Proof.
  rewrite list_elem_of_omap. unfold modified_of. split.
  - intros [[k c] [Hin He]]. cbn [fst snd] in He.
    destruct (JsMap.get (build_map prev) k) as [p|] eqn:Hp; [| discriminate].
    destruct (differb c p) eqn:Hd; [| discriminate].
    injection He as <-. cbn [m_name entry_of].
    exists p, c. repeat split; [exact Hp | | now apply differb_true].
    apply elem_get; [apply build_map_NoDup | exact Hin].
  - intros (p & c & Hp & Hc & Hd & He).
    exists (m_name e, c). split; [now apply get_elem |].
    cbn [fst snd]. rewrite Hp.
    apply differb_true in Hd. rewrite Hd. now rewrite <- He.
Qed.

Lemma elem_of_unchanged prev cur c :
  c ∈ omap (unchanged_of (build_map prev)) (build_map cur)
  <-> exists p,
        JsMap.get (build_map prev) (name c) = Some p /\
        JsMap.get (build_map cur) (name c) = Some c /\
        ¬ differs c p.
Proof.
  rewrite list_elem_of_omap. unfold unchanged_of. split.
  - intros [[k c'] [Hin He]]. cbn [fst snd] in He.
    destruct (JsMap.get (build_map prev) k) as [p|] eqn:Hp; [| discriminate].
    destruct (differb c' p) eqn:Hd; [discriminate |].
    injection He as ->.
    pose proof (build_map_entry _ _ _ Hin) as Hname. subst k.
    exists p. repeat split; [exact Hp | | now apply differb_false].
    apply elem_get; [apply build_map_NoDup | exact Hin].
  - intros (p & Hp & Hc & Hd).
    exists (name c, c). split; [now apply get_elem |].
    cbn [fst snd]. rewrite Hp.
    apply differb_false in Hd. now rewrite Hd.
Qed.

Lemma names_modified prev cur n :
  n ∈ modified_names (omap (modified_of (build_map prev)) (build_map cur))
  <-> exists p c,
        JsMap.get (build_map prev) n = Some p /\
        JsMap.get (build_map cur) n = Some c /\ differs c p.
Proof.
  unfold modified_names.
  rewrite elem_of_list_to_set, list_elem_of_In, in_map_iff. split.
  - intros [e [<- He]].
    apply list_elem_of_In, elem_of_modified in He
      as (p & c & Hp & Hc & Hd & _). eauto.
  - intros (p & c & Hp & Hc & Hd).
    exists (entry_of n p c). split; [reflexivity |].
    apply list_elem_of_In, elem_of_modified. cbn [m_name entry_of]. eauto 6.
Qed.

Lemma names_unchanged prev cur n :
  n ∈ names (omap (unchanged_of (build_map prev)) (build_map cur))
  <-> exists p c,
        JsMap.get (build_map prev) n = Some p /\
        JsMap.get (build_map cur) n = Some c /\ ¬ differs c p.
Proof.
  rewrite elem_of_names, list_elem_of_In, in_map_iff. split.
  - intros [c [<- Hc]].
    apply list_elem_of_In, elem_of_unchanged in Hc as (p & Hp & Hc & Hd).
    eauto.
  - intros (p & c & Hp & Hc & Hd).
    pose proof (build_map_get _ _ _ Hc) as [_ Hname].
    exists c. split; [exact Hname |].
    apply list_elem_of_In, elem_of_unchanged. rewrite Hname. eauto.
Qed.

End Membership.

(** ** The change detector *)

Section ChangeDetector.

Context {World Callback : Type}.
Implicit Types (s : @Sys World Callback) (A B : list FileRecord).

Lemma detectChanges_eq s B :
  detectChanges B s = (diff_snapshots (lastScanResults (self s)) B, s).
Proof. reflexivity. Qed.

(** The four name sets of a report, against the names of the two
    snapshots. *)
Lemma diff_snapshots_names A B :
  let r := diff_snapshots A B in
  names (added r) = names B ∖ names A ∧
  names (removed r) = names A ∖ names B ∧
  modified_names (modified r) ∪ names (unchanged r) = names A ∩ names B ∧
  modified_names (modified r) ## names (unchanged r).
Proof.
  intros r. subst r. rewrite diff_snapshots_eq.
  cbn [added removed modified unchanged].
  rewrite !names_only_in.
  pose proof (names_modified A B) as Hm.
  pose proof (names_unchanged A B) as Hu.
  set (M := modified_names _) in *. set (U := names (omap _ _)) in *.
  split; [reflexivity |]. split; [reflexivity |]. split.
  - apply set_eq. intros n.
    rewrite elem_of_union, elem_of_intersection, Hm, Hu, !names_get.
    split.
    + intros [(p & c & Hp & Hc & _) | (p & c & Hp & Hc & _)]; eauto.
    + intros [[p Hp] [c Hc]].
      destruct (differb c p) eqn:Hd.
      * left. apply differb_true in Hd. eauto.
      * right. apply differb_false in Hd. eauto.
  - intros n Hn Hn'. apply Hm in Hn as (p & c & Hp & Hc & Hd).
    apply Hu in Hn' as (p' & c' & Hp' & Hc' & Hd'). congruence.
Qed.

(** C1.  For every retained snapshot [A] and current snapshot [B], the
    report of [detectChanges] partitions the names: the name sets of
    [added], [removed], [modified] and [unchanged] are pairwise disjoint,
    their union is the union of the names of [A] and of [B]; [added]
    holds exactly the names of [B] that are not in [A], [removed] exactly
    the names of [A] that are not in [B], and the names of [modified] and
    of [unchanged] lie in the intersection. *)
Theorem detectChanges_partition s B :
  let A := lastScanResults (self s) in
  let r := (detectChanges B s).1 in
  names (added r) ∪ names (removed r) ∪ modified_names (modified r)
    ∪ names (unchanged r) = names A ∪ names B ∧
  (names (added r) ## names (removed r) ∧
   names (added r) ## modified_names (modified r) ∧
   names (added r) ## names (unchanged r) ∧
   names (removed r) ## modified_names (modified r) ∧
   names (removed r) ## names (unchanged r) ∧
   modified_names (modified r) ## names (unchanged r)) ∧
  names (added r) = names B ∖ names A ∧
  names (removed r) = names A ∖ names B ∧
  modified_names (modified r) ⊆ names A ∩ names B ∧
  names (unchanged r) ⊆ names A ∩ names B.
Proof.
  intros A r. subst r. rewrite detectChanges_eq. cbn [fst]. fold A.
  destruct (diff_snapshots_names A B) as (Ha & Hr & Hmu & Hdisj).
  cbv zeta in *.
  set (r := diff_snapshots A B) in *. clearbody r.
  rewrite Ha, Hr. clear Ha Hr.
  set (M := modified_names (modified r)) in *.
  set (U := names (unchanged r)) in *. clearbody M U.
  assert (HM : M ⊆ names A ∩ names B) by (rewrite <- Hmu; set_solver).
  assert (HU : U ⊆ names A ∩ names B) by (rewrite <- Hmu; set_solver).
  assert (Hall : names A ∩ names B ⊆ M ∪ U) by now rewrite Hmu.
  clear Hmu.
  split; [| split; [repeat split; set_solver | repeat split; done]].
  apply set_eq. intros n.
  destruct (decide (n ∈ names A)), (decide (n ∈ names B)); set_solver.
Qed.

(** C2.  [hasChanges] is true if and only if [added], [removed] or
    [modified] is not empty.  And for every name that a record of the
    retained snapshot and a record of the current one have, with [p] and
    [c] the records of that name in the two snapshots: [modified] has an
    entry of that name if and only if checksum, lastModified or size
    differ between [c] and [p]; such an entry carries [p], [c] and three
    flags that are set exactly when the corresponding field differs; when
    no field differs [c] is in [unchanged], and when one does no record
    of that name is. *)
Theorem detectChanges_classifies s B :
  let A := lastScanResults (self s) in
  let r := (detectChanges B s).1 in
  (hasChanges r = true <->
     added r ≠ [] ∨ removed r ≠ [] ∨ modified r ≠ []) ∧
  forall n,
    n ∈ map name A -> n ∈ map name B ->
    exists p c,
      record_named n A = Some p ∧ record_named n B = Some c ∧
      ((exists e, e ∈ modified r ∧ m_name e = n) <-> differs c p) ∧
      (forall e, e ∈ modified r -> m_name e = n ->
         previous e = p ∧ current e = c ∧
         (contentChanged (changes e) = true <-> checksum c ≠ checksum p) ∧
         (sizeChanged (changes e) = true <-> size c ≠ size p) ∧
         (timeChanged (changes e) = true
          <-> lastModified c ≠ lastModified p)) ∧
      (¬ differs c p -> c ∈ unchanged r) ∧
      (differs c p -> forall u, u ∈ unchanged r -> name u ≠ n).
Proof.
  intros A r. subst r. rewrite detectChanges_eq. cbn [fst].
  fold A. rewrite diff_snapshots_eq.
  cbn [hasChanges added removed modified unchanged].
  split.
  { rewrite !orb_true_iff.
    assert (Hne : forall X (l : list X), nonempty l = true <-> l ≠ []).
    { intros X [|x l]; cbn; split; congruence. }
    rewrite !Hne. tauto. }
  intros n [p Hp]%record_named_Some [c Hc]%record_named_Some.
  exists p, c. split; [exact Hp |]. split; [exact Hc |].
  rewrite <- build_map_record_named in Hp, Hc.
  pose proof (build_map_get _ _ _ Hc) as [_ Hname].
  assert (Hshape : forall e,
    e ∈ omap (modified_of (build_map A)) (build_map B) ->
    m_name e = n -> e = entry_of n p c).
  { intros e He Hn.
    apply elem_of_modified in He as (p' & c' & Hp' & Hc' & _ & He).
    rewrite Hn in *. congruence. }
  split; [split |]; [| | split; [| split]].
  - intros [e [He <-]].
    apply elem_of_modified in He as (p' & c' & Hp' & Hc' & Hd & _).
    congruence.
  - intros Hd. exists (entry_of n p c). split; [| reflexivity].
    apply elem_of_modified. cbn [m_name entry_of]. eauto 6.
  - intros e He Hn. rewrite (Hshape e He Hn).
    cbn [entry_of previous current changes contentChanged sizeChanged
         timeChanged].
    now rewrite !strict_ne_str_true, strict_ne_num_true.
  - intros Hd. apply elem_of_unchanged. rewrite Hname. eauto.
  - intros Hd u Hu Hn. subst n.
    apply elem_of_unchanged in Hu as (p' & Hp' & Hc' & Hd'). congruence.
Qed.

(** C10.  In every report of [detectChanges], [allFiles] is the list of
    the names of the records of the current snapshot, in order; as a set
    it is the names of the added, modified and unchanged files, and it
    holds the name of no removed file. *)
Theorem detectChanges_allFiles s B :
  let r := (detectChanges B s).1 in
  allFiles r = map name B ∧
  (list_to_set (allFiles r) : gset jsstring)
    = names (added r) ∪ modified_names (modified r) ∪ names (unchanged r) ∧
  (forall f, f ∈ removed r -> name f ∉ allFiles r).
Proof.
  intros r. subst r. rewrite detectChanges_eq. cbn [fst].
  set (A := lastScanResults (self s)).
  destruct (diff_snapshots_names A B) as (Ha & Hr & Hmu & _).
  cbv zeta in *.
  assert (Hall : allFiles (diff_snapshots A B) = map name B).
  { now rewrite diff_snapshots_eq. }
  set (r := diff_snapshots A B) in *. clearbody r.
  split; [exact Hall |]. rewrite Hall. fold (names B). split.
  - rewrite Ha, <- (assoc_L (∪)), Hmu. apply set_eq. intros n.
    destruct (decide (n ∈ names A)); set_solver.
  - intros f Hf Hin.
    assert (name f ∈ names (removed r)) as Hn.
    { apply elem_of_names, list_elem_of_In, in_map.
      now apply list_elem_of_In. }
    apply elem_of_names in Hin. set_solver.
Qed.

(** C7.  Running [detectChanges] twice on the same retained snapshot and
    the same argument gives the same report; neither run changes the
    scanner, the world or the log of transport exchanges; and the report
    is the same from any state that retains the same snapshot. *)
Theorem detectChanges_pure s B :
  let '(r1, s1) := detectChanges B s in
  let '(r2, s2) := detectChanges B s1 in
  r1 = r2 ∧ s1 = s ∧ s2 = s ∧
  exchanges s2 = exchanges s ∧
  forall s' : @Sys World Callback,
    lastScanResults (self s') = lastScanResults (self s) ->
    (detectChanges B s').1 = r1.
Proof.
  rewrite !detectChanges_eq. repeat split.
  intros s' Hs'. rewrite detectChanges_eq. cbn [fst]. now rewrite Hs'.
Qed.

End ChangeDetector.

(** Scenario 3 of section 8 of the specification, through C2: both
    snapshots have [ch1], changes are reported, and the entry for [ch1]
    carries the flags [true], [false], [false]. *)
Lemma detectChanges_classifies_scenario3 :
  let A := [Sample.ch1 (js "x1")] in
  let B := [Sample.ch1 (js "x2")] in
  let r := (detectChanges B (Sample.retaining A)).1 in
  js "ch1" ∈ map name A ∧ js "ch1" ∈ map name B ∧
  hasChanges r = true ∧
  (exists e, e ∈ modified r ∧ m_name e = js "ch1") ∧
  (forall e, e ∈ modified r -> m_name e = js "ch1" ->
     contentChanged (changes e) = true ∧
     sizeChanged (changes e) = false ∧
     timeChanged (changes e) = false).
Proof.
  intros A B r.
  assert (HA : js "ch1" ∈ map name A) by (left).
  assert (HB : js "ch1" ∈ map name B) by (left).
  split; [exact HA |]. split; [exact HB |].
  destruct (detectChanges_classifies (Sample.retaining A) B) as [Hch Hn].
  destruct (Hn (js "ch1") HA HB) as (p & c & Hp & Hc & Hiff & Hflags & _).
  injection Hp as <-. injection Hc as <-.
  assert (He : exists e, e ∈ modified r ∧ m_name e = js "ch1").
  { apply Hiff. left. vm_compute. discriminate. }
  split; [| split; [exact He |]].
  - apply Hch. right. right. destruct He as [e [He _]].
    intros Hnil. fold r in Hnil. rewrite Hnil in He. inversion He.
  - intros e He' Hname.
    destruct (Hflags e He' Hname) as (_ & _ & Hcc & Hs & Ht).
    split; [apply Hcc; vm_compute; discriminate |].
    split; apply not_true_is_false; intros H.
    + now apply Hs in H.
    + now apply Ht in H.
Defined.

Section Scenarios.

Example scenario1_added :
  (detectChanges [Sample.ch1 (js "x1")] (Sample.retaining [])).1
  = {| hasChanges := true; added := [Sample.ch1 (js "x1")]; removed := [];
       modified := []; unchanged := []; allFiles := [js "ch1"] |}.
Proof. reflexivity. Qed.

Example scenario2_unchanged :
  (detectChanges [Sample.ch1 (js "x1")]
     (Sample.retaining [Sample.ch1 (js "x1")])).1
  = {| hasChanges := false; added := []; removed := []; modified := [];
       unchanged := [Sample.ch1 (js "x1")]; allFiles := [js "ch1"] |}.
Proof. reflexivity. Qed.

Example scenario3_modified :
  (detectChanges [Sample.ch1 (js "x2")]
     (Sample.retaining [Sample.ch1 (js "x1")])).1
  = {| hasChanges := true; added := []; removed := [];
       modified :=
         [{| m_name := js "ch1";
             previous := Sample.ch1 (js "x1");
             current := Sample.ch1 (js "x2");
             changes :=
               {| contentChanged := true; sizeChanged := false;
                  timeChanged := false |} |}];
       unchanged := []; allFiles := [js "ch1"] |}.
Proof. reflexivity. Qed.

Example scenario_removed :
  (detectChanges [] (Sample.retaining [Sample.ch1 (js "x1")])).1
  = {| hasChanges := true; added := [];
       removed := [Sample.ch1 (js "x1")]; modified := [];
       unchanged := []; allFiles := [] |}.
Proof. reflexivity. Qed.

End Scenarios.

(** ** What the scanning methods leave alone *)

Section Frames.

Context {World Callback : Type} {env : Collaborators World Callback}.
Implicit Types (s : @Sys World Callback) (o : XMLFileScanner Callback).

Lemma same_but_cache_refl o : same_but_cache o o.
Proof. now repeat split. Qed.

Lemma same_but_cache_trans o1 o2 o3 :
  same_but_cache o1 o2 -> same_but_cache o2 o3 -> same_but_cache o1 o3.
Proof. unfold same_but_cache. intuition congruence. Qed.

Lemma same_but_cache_set o c : same_but_cache o (set_cache c o).
Proof. now repeat split. Qed.

Lemma Framed_ret {A} (a : A) :
  Framed (ret (World := World) (Callback := Callback) a).
Proof. intros s. apply same_but_cache_refl. Qed.

Lemma Framed_bind {A B} (m : @M World Callback A)
    (k : A -> @M World Callback B) :
  Framed m -> (forall a, Framed (k a)) -> Framed (bind m k).
Proof.
  intros Hm Hk s. unfold bind. specialize (Hm s).
  destruct (m s) as [a s1]. cbn [snd] in *.
  eapply same_but_cache_trans; [exact Hm | apply Hk].
Qed.

Lemma Framed_await_fetch req : Framed (await_fetch req).
Proof.
  intros s. unfold await_fetch. destruct (fetch req (world s)).
  apply same_but_cache_refl.
Qed.

Lemma Framed_now : Framed (now (World := World)).
Proof.
  intros s. unfold now. destruct (Date_now (world s)).
  apply same_but_cache_refl.
Qed.

Lemma Framed_isoNow : Framed (isoNow (World := World)).
Proof.
  intros s. unfold isoNow. destruct (Date_toISOString (world s)).
  apply same_but_cache_refl.
Qed.

Lemma Framed_this : Framed (this (World := World) (Callback := Callback)).
Proof. intros s. apply same_but_cache_refl. Qed.

Lemma Framed_assign_cache
    (f : XMLFileScanner Callback -> gmap jsstring CacheEntry) :
  Framed (assign (World := World) (fun o => set_cache (f o) o)).
Proof. intros s. apply same_but_cache_set. Qed.

Lemma Framed_for_of {A B} (l : list A) (body : B -> A -> @M World Callback B) :
  (forall b a, Framed (body b a)) -> forall b, Framed (for_of l body b).
Proof.
  intros Hbody. induction l as [|a l IH]; intros b; cbn [for_of].
  - apply Framed_ret.
  - apply Framed_bind; [apply Hbody | exact IH].
Qed.

End Frames.

Create HintDb framed.

#[local] Hint Resolve Framed_ret Framed_await_fetch Framed_now Framed_isoNow
  Framed_this Framed_assign_cache : framed.

(** Splits a computation along its loops, binds and case distinctions. *)
Ltac framed :=
  repeat first
    [ progress eauto 2 with framed
    | apply Framed_for_of; intros ? ?
    | apply Framed_bind; [| intros ?]
    | match goal with
      | |- Framed (match ?x with _ => _ end) => destruct x
      | |- Framed (let _ := _ in _) => cbv zeta
      end ].

Section FramedMethods.

Context {World Callback : Type} {env : Collaborators World Callback}.

Lemma Framed_or_else h (rest : @M World Callback jsstring) :
  Framed rest -> Framed (or_else h rest).
Proof. intros Hrest. unfold or_else. framed. Qed.

Lemma Framed_getFileInfo url : Framed (getFileInfo url).
Proof.
  unfold getFileInfo. framed.
  apply Framed_or_else, Framed_or_else, Framed_isoNow.
Qed.

Lemma Framed_probe url key : Framed (probe url key).
Proof. unfold probe. framed. Qed.

Hint Resolve Framed_probe Framed_getFileInfo : framed.

Lemma Framed_testFileExists url : Framed (testFileExists url).
Proof. unfold testFileExists. framed. Qed.

Hint Resolve Framed_testFileExists : framed.

Lemma Framed_tryIndexFile basePath : Framed (tryIndexFile basePath).
Proof.
  unfold tryIndexFile. generalize indexFiles as candidates.
  induction candidates as [|f rest IH]; cbn [tryIndexFile_loop]; framed.
Qed.

Lemma Framed_tryDirectoryListing basePath :
  Framed (tryDirectoryListing basePath).
Proof. unfold tryDirectoryListing. framed. Qed.

Lemma Framed_tryPatternScanning basePath :
  Framed (tryPatternScanning basePath).
Proof. unfold tryPatternScanning. framed. Qed.

Lemma Framed_checkChaptersJson basePath :
  Framed (checkChaptersJson basePath).
Proof. unfold checkChaptersJson. framed. Qed.

Hint Resolve Framed_tryIndexFile Framed_tryDirectoryListing
  Framed_tryPatternScanning Framed_checkChaptersJson : framed.

Lemma Framed_discoverFiles basePath : Framed (discoverFiles basePath).
Proof. unfold discoverFiles. framed. Qed.

Hint Resolve Framed_discoverFiles : framed.

Lemma Framed_scan_file basePath fileDetails fileName :
  Framed (scan_file basePath fileDetails fileName).
Proof. unfold scan_file. framed. Qed.

Hint Resolve Framed_scan_file : framed.

Lemma Framed_scanDirectory basePath : Framed (scanDirectory basePath).
Proof. unfold scanDirectory. framed. Qed.

End FramedMethods.


(** ** The existence probe *)

Section Probe.

Context {World Callback : Type} {env : Collaborators World Callback}.
Implicit Types (s : @Sys World Callback) (url : jsstring).

Lemma testFileExists_hit s url b w :
  fresh_entry url s = (Some b, w) ->
  testFileExists url s = (b, with_world s w).
Proof.
  unfold fresh_entry, testFileExists, bind, this, now.
  destruct (cache (self s) !! (js "exists:" ++ url)) as [cached|];
    [| discriminate].
  destruct (Date_now (world s)) as [t w'].
  destruct (t - timestamp cached <? 30000); [| discriminate].
  now intros [= <- <-].
Qed.

Lemma testFileExists_miss s url w :
  fresh_entry url s = (None, w) ->
  testFileExists url s = probe url (js "exists:" ++ url) (with_world s w).
Proof.
  unfold fresh_entry, testFileExists, bind, this, now.
  destruct (cache (self s) !! (js "exists:" ++ url)) as [cached|].
  - destruct (Date_now (world s)) as [t w'].
    destruct (t - timestamp cached <? 30000); [discriminate |].
    now intros [= <-].
  - intros [= <-]. now destruct s.
Qed.

Lemma probe_fulfilled s url key response w1 t w2 :
  fetch {| method := HEAD; target := url |} (world s)
  = (Fulfilled response, w1) ->
  Date_now w1 = (t, w2) ->
  probe url key s
  = (ok response,
     {| self :=
          set_cache
            (<[key := {| c_exists := ok response; timestamp := t |}]>
               (cache (self s)))
            (self s);
        world := w2;
        exchanges :=
          exchanges s ++
          [({| method := HEAD; target := url |}, Fulfilled response)] |}).
Proof.
  intros Hf Ht. unfold probe, bind, await_fetch, now, assign, ret.
  rewrite Hf. cbn. now rewrite Ht.
Qed.

Lemma probe_rejected s url key w1 :
  fetch {| method := HEAD; target := url |} (world s) = (Rejected, w1) ->
  probe url key s
  = (false,
     {| self := self s; world := w1;
        exchanges :=
          exchanges s ++ [({| method := HEAD; target := url |}, Rejected)] |}).
Proof.
  intros Hf. unfold probe, bind, await_fetch, ret. now rewrite Hf.
Qed.

(** C4, as amended.  When [this.cache] holds an entry for the URL and the
    clock shows it younger than 30000 ms, [testFileExists] returns the
    cached boolean with no transport call and leaves the cache as it is.
    Otherwise it issues one [HEAD] request: when the request completes
    it stores [response.ok] with the time read after it and returns
    [response.ok]; when the transport fails it returns [false] and
    leaves the cache as it is.  So when a first probe finds no fresh
    entry and its request completes, a second probe of the same URL that
    starts less than 30000 ms after the stored time makes no transport
    call: the two probes issue exactly one. *)
Theorem testFileExists_cached s url :
  let key := js "exists:" ++ url in
  let head := {| method := HEAD; target := url |} in
  (forall b w,
     fresh_entry url s = (Some b, w) ->
     testFileExists url s = (b, with_world s w)) ∧
  (forall w response w1 t w2,
     fresh_entry url s = (None, w) ->
     fetch head w = (Fulfilled response, w1) ->
     Date_now w1 = (t, w2) ->
     testFileExists url s
     = (ok response,
        {| self :=
             set_cache
               (<[key := {| c_exists := ok response; timestamp := t |}]>
                  (cache (self s)))
               (self s);
           world := w2;
           exchanges := exchanges s ++ [(head, Fulfilled response)] |})) ∧
  (forall w w1,
     fresh_entry url s = (None, w) ->
     fetch head w = (Rejected, w1) ->
     testFileExists url s
     = (false,
        {| self := self s; world := w1;
           exchanges := exchanges s ++ [(head, Rejected)] |})) ∧
  (forall w response w1 t w2 t' w3,
     fresh_entry url s = (None, w) ->
     fetch head w = (Fulfilled response, w1) ->
     Date_now w1 = (t, w2) ->
     Date_now w2 = (t', w3) ->
     t' - t < 30000 ->
     let '(b1, s1) := testFileExists url s in
     let '(b2, s2) := testFileExists url s1 in
     b1 = ok response ∧ b2 = ok response ∧
     exchanges s2 = exchanges s ++ [(head, Fulfilled response)]).
Proof.
  intros key head. split; [| split; [| split]].
  - intros b w. apply testFileExists_hit.
  - intros w response w1 t w2 Hmiss Hf Ht.
    rewrite (testFileExists_miss _ _ _ Hmiss).
    exact (probe_fulfilled (with_world s w) url key response w1 t w2 Hf Ht).
  - intros w w1 Hmiss Hf.
    rewrite (testFileExists_miss _ _ _ Hmiss).
    exact (probe_rejected (with_world s w) url key w1 Hf).
  - intros w response w1 t w2 t' w3 Hmiss Hf Ht Ht' Hlt.
    rewrite (testFileExists_miss _ _ _ Hmiss).
    fold key.
    rewrite (probe_fulfilled (with_world s w) url key response w1 t w2 Hf Ht).
    cbn [with_world self exchanges].
    erewrite testFileExists_hit; [repeat split |].
    unfold fresh_entry. cbn [self cache set_cache world].
    fold key. rewrite lookup_insert_eq, Ht'. cbn [timestamp c_exists].
    destruct (Z.ltb_spec (t' - t) 30000); [reflexivity | lia].
Qed.

End Probe.


(** C4 through a sample: the server answers, the clock advances by a second
    at each reading, and two probes of a URL issue one request. *)
Lemma testFileExists_cached_sample :
  let env := Sample.world_of Sample.generous in
  let url := js "/docs/quiz-1.xml" in
  let head := {| method := HEAD; target := url |} in
  fresh_entry url Sample.start = (None, 0) ∧
  fetch head 0 = (Fulfilled (Sample.page []), 0) ∧
  Date_now 0 = (0, 1000) ∧ Date_now 1000 = (1000, 2000) ∧
  1000 - 0 < 30000 ∧
  let '(b1, s1) := testFileExists url Sample.start in
  let '(b2, s2) := testFileExists url s1 in
  b1 = true ∧ b2 = true ∧
  exchanges s2 = [(head, Fulfilled (Sample.page []))].
Proof.
  intros env url head.
  do 5 (split; [reflexivity || lia |]).
  exact
    (proj2 (proj2 (proj2 (testFileExists_cached (env := env) Sample.start url)))
       0 (Sample.page []) 0 0 1000 1000 2000
       eq_refl eq_refl eq_refl eq_refl ltac:(lia)).
Defined.

(** C4, as worded, fails twice.  When the transport fails nothing is
    written to the cache, and two probes of the same URL, both at time 0,
    issue two requests.  And a probe answered from the cache writes
    nothing: after a second probe, at time 1000, the entry still carries
    the time 0 of the first. *)
Lemma testFileExists_not_always_written :
  (let env := Sample.world_of Sample.offline in
   let url := js "/docs/quiz-1.xml" in
   let '(b1, s1) := testFileExists url Sample.start in
   let '(b2, s2) := testFileExists url s1 in
   b1 = false ∧ b2 = false ∧
   cache (self s1) !! (js "exists:" ++ url) = None ∧
   world s2 = 0 ∧
   length (exchanges s2) = 2%nat ∧ length (exchanges s2) ≠ 1%nat) ∧
  (let env := Sample.world_of Sample.generous in
   let url := js "/docs/quiz-1.xml" in
   let '(b1, s1) := testFileExists url Sample.start in
   let '(b2, s2) := testFileExists url s1 in
   b2 = true ∧ world s1 = 1000 ∧ world s2 = 2000 ∧
   length (exchanges s2) = 1%nat ∧
   cache (self s2) !! (js "exists:" ++ url)
   = Some {| c_exists := true; timestamp := 0 |}).
Proof. vm_compute. repeat split; discriminate. Qed.

(** ** The metadata fetcher *)

Section MetadataFetcher.

Context {World Callback : Type} {env : Collaborators World Callback}.
Implicit Types (s : @Sys World Callback) (url : jsstring).

Lemma or_else_usable h (rest : @M World Callback jsstring) s :
  or_else h rest s
  = match usable h with
    | Some v => (v, s)
    | None => rest s
    end.
Proof.
  unfold or_else, usable. destruct h as [v|]; [| reflexivity].
  now destruct (truthy v).
Qed.

(** C5.  [getFileInfo] always returns: it issues one [GET] request and
    leaves the scanner as it is.  When the request fails, the status is
    not a success or the body cannot be read, the result is
    [{ exists: false }].  Otherwise the result holds the body text as
    content, its [generateChecksum] as checksum, its length as size, and
    as lastModified the [last-modified] header, falling back to the [date]
    header, falling back to the current time when neither is there; a
    header whose value is empty counts as not there. *)
Theorem getFileInfo_result s url :
  let get := {| method := GET; target := url |} in
  let '(r, w1) := fetch get (world s) in
  let '(info, s') := getFileInfo url s in
  self s' = self s ∧
  exchanges s' = exchanges s ++ [(get, r)] ∧
  match r with
  | Rejected => info = Missing
  | Fulfilled response =>
      match ok response, text response with
      | true, Some content =>
          info =
            Present content (generateChecksum content)
              (match usable (headers_get response (js "last-modified")) with
               | Some v => v
               | None =>
                   match usable (headers_get response (js "date")) with
                   | Some d => d
                   | None => (Date_toISOString w1).1
                   end
               end)
              (strlen content)
      | _, _ => info = Missing
      end
  end.
Proof.
  intros get. unfold getFileInfo, bind, await_fetch. fold get.
  destruct (fetch get (world s)) as [r w1].
  destruct r as [| response]; [now cbn |].
  destruct (ok response); [| now cbn].
  destruct (text response) as [content |]; [| now cbn].
  rewrite or_else_usable.
  destruct (usable (headers_get response (js "last-modified"))) as [v|];
    [now cbn |].
  rewrite or_else_usable.
  destruct (usable (headers_get response (js "date"))) as [d|];
    [now cbn |].
  unfold isoNow. cbn [world].
  destruct (Date_toISOString w1) as [iso w2]. now cbn.
Qed.

End MetadataFetcher.


(** C5 as worded fails where the [last-modified] header is present with
    an empty value: the wording takes the header, the empty string; the
    fallback of lines 29-31 is [||], which passes an empty string by, and
    [getFileInfo] answers with the [date] header. *)
Theorem getFileInfo_empty_header :
  let body := js "<quiz/>" in
  let response := Sample.dated body in
  let env := Sample.world_of (fun _ => Fulfilled response) in
  let current := js "2024-01-01T00:00:00.000Z" in
  headers_get response (js "last-modified") = Some [] ∧
  lastModified_as_worded response current = [] ∧
  (getFileInfo (js "/docs/quiz.xml") Sample.start).1
  = Present body (generateChecksum body)
      (js "Tue, 02 Jan 2024 10:00:00 GMT") 7 ∧
  js "Tue, 02 Jan 2024 10:00:00 GMT"
  ≠ lastModified_as_worded response current.
Proof. vm_compute. repeat split. discriminate. Qed.

(** With no header at all the current time is taken, and a server that is
    down gives [{ exists: false }]. *)
Example getFileInfo_samples :
  (let env := Sample.world_of Sample.generous in
   (getFileInfo (js "/docs/quiz.xml") Sample.start).1
   = Present [] (js "0") (js "2024-01-01T00:00:00.000Z") 0) ∧
  (let env := Sample.world_of Sample.offline in
   (getFileInfo (js "/docs/quiz.xml") Sample.start).1 = Missing) ∧
  (let env := Sample.world_of (fun _ => Fulfilled Sample.not_found) in
   (getFileInfo (js "/docs/quiz.xml") Sample.start).1 = Missing).
Proof. vm_compute. repeat split. Qed.

(** ** A scan *)

Section Scan.

Context {World Callback : Type} {env : Collaborators World Callback}.
Implicit Types (s : @Sys World Callback).

(** C6.  After [performScan] has computed the report with
    [detectChanges], the retained snapshot [this.lastScanResults] is the
    whole current snapshot, the one [scanDirectory] returned, whatever
    the report says and whatever the change handler does; a report that
    is returned compares the snapshot retained before with the current
    one. *)
Theorem performScan_replaces_snapshot s basePath :
  let '(currentFiles, s1) := scanDirectory basePath s in
  let '(result, s2) := performScan basePath s in
  lastScanResults (self s2) = currentFiles ∧
  cache (self s2) = cache (self s1) ∧
  contentCache (self s2) = contentCache (self s) ∧
  forall c, result = Report c ->
    c = diff_snapshots (lastScanResults (self s)) currentFiles.
Proof.
  pose proof (Framed_scanDirectory basePath s) as (Hcc & Hlast & _ & _).
  unfold performScan, bind.
  destruct (scanDirectory basePath s) as [currentFiles s1].
  cbn [snd] in *. rewrite detectChanges_eq.
  unfold assign, this. cbn [self]. rewrite Hlast.
  set (r := diff_snapshots _ _).
  destruct (hasChanges r && handler_truthy _) eqn:E;
    [| cbn; repeat split; congruence].
  cbn [onChange set_lastScanResults].
  destruct (onChange (self s1)) as [| [f | t]].
  - cbn. repeat split; congruence.
  - unfold call_host. cbn [world].
    destruct (invoke f r (world s1)) as [[|] w];
      cbn; repeat split; congruence.
  - cbn. repeat split; congruence.
Qed.

End Scan.

(** ** The names of a snapshot *)

Section SnapshotNames.

Context {World Callback : Type} {env : Collaborators World Callback}.
Implicit Types (s : @Sys World Callback) (basePath : jsstring).

Lemma set_add_NoDup foundFiles file :
  NoDup foundFiles -> NoDup (set_add foundFiles file).
Proof.
  intros Hnd. unfold set_add. case_bool_decide as Hin; [exact Hnd |].
  apply NoDup_app. split; [exact Hnd |]. split; [| apply NoDup_singleton].
  intros x Hx Hx'. apply list_elem_of_singleton in Hx'. congruence.
Qed.

Lemma fold_set_add_NoDup files : forall foundFiles,
  NoDup foundFiles -> NoDup (fold_left set_add files foundFiles).
Proof.
  induction files as [|f files IH]; intros foundFiles Hnd; cbn [fold_left].
  - exact Hnd.
  - now apply IH, set_add_NoDup.
Qed.

(** [discoverFiles] returns each name once. *)
Lemma discoverFiles_NoDup basePath s :
  NoDup (discoverFiles basePath s).1.
Proof.
  unfold discoverFiles, bind, ret.
  destruct (tryIndexFile basePath s) as [indexed s1].
  destruct (tryDirectoryListing basePath s1) as [dirFiles s2].
  destruct (tryPatternScanning basePath s2) as [patternFiles s3].
  destruct (checkChaptersJson basePath s3) as [chapterFiles s4].
  cbn [fst]. do 4 apply fold_set_add_NoDup. apply NoDup_nil_2.
Qed.

(** The loop of [scanDirectory] keeps the names of the files that exist,
    in order. *)
Lemma scan_file_eq basePath fileDetails fileName s :
  scan_file basePath fileDetails fileName s
  = let fileUrl := basePath ++ fileName ++ js ".xml" in
    let '(fileInfo, s1) := getFileInfo fileUrl s in
    (match fileInfo with
     | Present _ checksum lastModified size =>
         fileDetails ++
         [{| name := fileName; url := fileUrl; checksum := checksum;
             lastModified := lastModified; size := size |}]
     | Missing => fileDetails
     end, s1).
Proof.
  unfold scan_file, bind. cbv zeta.
  destruct (getFileInfo _ s) as [[|] s1]; reflexivity.
Qed.

Lemma scanDirectory_loop_names basePath fileNames :
  forall fileDetails s,
  exists kept,
    kept `sublist_of` fileNames ∧
    map name (for_of fileNames (scan_file basePath) fileDetails s).1
    = map name fileDetails ++ kept.
Proof.
  induction fileNames as [|fileName fileNames IH]; intros fileDetails s.
  - exists []. split; [constructor |]. cbn. now rewrite app_nil_r.
  - cbn [for_of]. unfold bind. rewrite scan_file_eq. cbv zeta.
    destruct (getFileInfo (basePath ++ fileName ++ js ".xml") s)
      as [[| content checksum lastModified size] s1].
    + destruct (IH fileDetails s1) as (kept & Hsub & Hnames).
      exists kept. split; [now apply sublist_cons | exact Hnames].
    + destruct (IH (fileDetails ++
                    [{| name := fileName;
                        url := basePath ++ fileName ++ js ".xml";
                        checksum := checksum;
                        lastModified := lastModified;
                        size := size |}]) s1) as (kept & Hsub & Hnames).
      exists (fileName :: kept). split; [now apply sublist_skip |].
      rewrite Hnames, map_app. cbn [map name]. now rewrite <- app_assoc.
Qed.

(** A snapshot holds each name once. *)
Lemma scanDirectory_NoDup basePath s :
  NoDup (map name (scanDirectory basePath s).1).
Proof.
  unfold scanDirectory. unfold bind at 1.
  pose proof (discoverFiles_NoDup basePath s) as Hnd.
  destruct (discoverFiles basePath s) as [fileNames s1]. cbn [fst] in Hnd.
  destruct (scanDirectory_loop_names basePath fileNames [] s1)
    as (kept & Hsub & Hnames).
  rewrite Hnames. cbn [map app]. eapply sublist_NoDup; eassumption.
Qed.

(** In a snapshot without repeated names the map holds each record under
    its name. *)
Lemma build_map_unique (l : list FileRecord) f :
  NoDup (map name l) -> f ∈ l ->
  JsMap.get (build_map l) (name f) = Some f.
Proof.
  intros Hnd Hin.
  assert (Hsome : exists g, JsMap.get (build_map l) (name f) = Some g).
  { apply names_get, elem_of_names, list_elem_of_In, in_map.
    now apply list_elem_of_In. }
  destruct Hsome as [g Hg]. rewrite Hg. f_equal.
  apply build_map_get in Hg as [Hgin Hname].
  apply list_elem_of_lookup in Hin as [i Hi].
  apply list_elem_of_lookup in Hgin as [j Hj].
  assert (i = j) as ->.
  { eapply NoDup_lookup; [exact Hnd | |].
    - rewrite list_lookup_fmap, Hi. reflexivity.
    - change (map name l) with (name <$> l).
      rewrite list_lookup_fmap, Hj. cbn. now rewrite Hname. }
  congruence.
Qed.

(** While names are distinct, every record of a snapshot is the record of
    its name. *)
Lemma record_named_unique (l : list FileRecord) f :
  NoDup (map name l) -> f ∈ l -> record_named (name f) l = Some f.
Proof.
  intros Hnd Hin. rewrite <- build_map_record_named.
  now apply build_map_unique.
Qed.

End SnapshotNames.

(** ** The index-file strategy *)

Section IndexFiles.

Context {World Callback : Type} {env : Collaborators World Callback}.
Implicit Types (s : @Sys World Callback) (basePath : jsstring).

Lemma tryIndexFile_loop_cons basePath indexFile rest s :
  tryIndexFile_loop basePath (indexFile :: rest) s
  = let '(r, s1) := await_fetch (get_index basePath indexFile) s in
    match listed r with
    | [] => tryIndexFile_loop basePath rest s1
    | _ :: _ => (listed r, s1)
    end.
Proof.
  cbn [tryIndexFile_loop]. unfold bind, get_index.
  destruct (await_fetch _ s) as [r s1].
  destruct r as [| response]; [reflexivity |]. cbn [listed].
  destruct (ok response); [| reflexivity].
  destruct (text response) as [body |]; [| reflexivity].
  now destruct (index_names body).
Qed.

Lemma tryIndexFile_loop_first basePath candidates : forall s,
  let '(files, s') := tryIndexFile_loop basePath candidates s in
  self s' = self s ∧
  exists tried,
    exchanges s' = exchanges s ++ tried ∧
    map fst tried
    = map (get_index basePath) (take (length tried) candidates) ∧
    match files with
    | [] =>
        length tried = length candidates ∧ Forall yields_nothing tried
    | _ :: _ =>
        exists before last,
          tried = before ++ [last] ∧ Forall yields_nothing before ∧
          files = listed last.2
    end.
Proof.
  induction candidates as [|indexFile rest IH]; intros s.
  - cbn. split; [reflexivity |]. exists []. now rewrite app_nil_r.
  - rewrite tryIndexFile_loop_cons.
    unfold await_fetch.
    destruct (fetch (get_index basePath indexFile) (world s)) as [r w].
    set (s1 := {| self := self s; world := w; exchanges := _ |}).
    destruct (listed r) as [|n ns] eqn:Hr.
    + specialize (IH s1).
      destruct (tryIndexFile_loop basePath rest s1) as [files s'].
      destruct IH as (Hself & tried & Hex & Hreq & Hfiles).
      split; [exact Hself |].
      exists ((get_index basePath indexFile, r) :: tried).
      split; [rewrite Hex; cbn; now rewrite <- app_assoc |].
      split; [cbn; now rewrite Hreq |].
      destruct files as [|f fs].
      * destruct Hfiles as [Hlen Hall]. split; [cbn; congruence |].
        now apply Forall_cons_2.
      * destruct Hfiles as (before & last & -> & Hall & Hlast).
        exists ((get_index basePath indexFile, r) :: before), last.
        split; [reflexivity |]. split; [now apply Forall_cons_2 | exact Hlast].
    + split; [reflexivity |].
      exists [(get_index basePath indexFile, r)].
      split; [reflexivity |]. split; [reflexivity |].
      exists [], (get_index basePath indexFile, r).
      split; [reflexivity |]. split; [apply Forall_nil_2 | symmetry; exact Hr].
Qed.

(** C8, as amended.  [tryIndexFile] requests the six candidate index
    files in their fixed order and stops at the first whose response
    lists at least one name: it returns the names of that one response,
    never those of two, and nothing when none lists a name.  The names
    of a body are those of its lines that, once trimmed, contain [.xml],
    empty names dropped.  A line that ends in [.xml], in any letter case,
    right after a code unit other than [/], names the segment between
    its last [/] and that extension; any other line names itself without
    its first [.xml].  The body of scenario 5 yields [chapter-1] and
    [chapter-2]. *)
Theorem tryIndexFile_first_listing s basePath :
  (let '(files, s') := tryIndexFile basePath s in
   self s' = self s ∧
   exists tried,
     exchanges s' = exchanges s ++ tried ∧
     map fst tried
     = map (get_index basePath) (take (length tried) indexFiles) ∧
     match files with
     | [] =>
         length tried = length indexFiles ∧ Forall yields_nothing tried
     | _ :: _ =>
         exists before last,
           tried = before ++ [last] ∧ Forall yields_nothing before ∧
           files = listed last.2
     end) ∧
  (forall body n,
     n ∈ index_names body
     <-> exists line,
           line ∈ split_lines body ∧
           includes (trim line) (js ".xml") = true ∧
           n = extract_name (trim line) ∧ n ≠ []) ∧
  (forall pre c ext,
     Regex.xml_at_end ext = true -> c ≠ 47%N ->
     extract_name (pre ++ c :: ext) = after_last_slash (pre ++ [c])) ∧
  (forall line,
     (forall pre c ext,
        line = pre ++ c :: ext -> Regex.xml_at_end ext = true -> c = 47%N) ->
     extract_name line = remove_first line (js ".xml")) ∧
  index_names Sample.two_chapters = [js "chapter-1"; js "chapter-2"].
Proof.
  split; [apply tryIndexFile_loop_first |].
  split; [apply elem_of_index_names |].
  split; [apply extract_name_segment |].
  split; [apply extract_name_fallback | reflexivity].
Qed.

End IndexFiles.

(** C8 through a sample: [index.txt] is missing and [files.txt] holds the
    body of scenario 5; and a line with a directory and an upper-case
    extension. *)
Lemma tryIndexFile_first_listing_sample :
  let env :=
    Sample.world_of
      (Sample.serving (js "/docs/files.txt") Sample.two_chapters) in
  let '(files, s') := tryIndexFile (js "/docs/") Sample.start in
  files = [js "chapter-1"; js "chapter-2"] ∧
  map (fun e => target e.1) (exchanges s')
  = [js "/docs/index.txt"; js "/docs/files.txt"] ∧
  Regex.xml_at_end (js ".XML") = true ∧ 49%N ≠ 47%N ∧
  extract_name (js "docs/Chapter-1.XML") = js "Chapter-1".
Proof.
  intros env.
  do 4 (split; [reflexivity || discriminate |]).
  exact
    (proj1 (proj2 (proj2
       (tryIndexFile_first_listing (env := env) Sample.start (js "/docs/"))))
       (js "docs/Chapter-") 49%N (js ".XML") eq_refl ltac:(discriminate)).
Defined.

(** C8, as worded: the line [a.xml.bak] mentions [.xml]; the segment
    before [.xml] is [a], and [tryIndexFile] returns [a.bak]. *)
Lemma tryIndexFile_name_not_segment :
  let env :=
    Sample.world_of (Sample.serving (js "/docs/index.txt") (js "a.xml.bak")) in
  let files := (tryIndexFile (js "/docs/") Sample.start).1 in
  files = [js "a.bak"] ∧
  name_as_worded (js "a.xml.bak") = js "a" ∧
  files ≠ [name_as_worded (js "a.xml.bak")].
Proof. vm_compute. repeat split. discriminate. Qed.

Section IndexSamples.

(** Only the first listing is returned, and the second index file is not
    even requested. *)
Example tryIndexFile_no_union :
  let env := Sample.world_of Sample.two_indexes in
  let '(files, s') := tryIndexFile (js "/docs/") Sample.start in
  files = [js "a"] ∧
  map (fun e => target e.1) (exchanges s') = [js "/docs/index.txt"].
Proof. vm_compute. repeat split. Qed.

Example extract_name_samples :
  map extract_name
    [js "chapter-1.xml"; js "a/b/c.XML"; js "x/y.xml/z.xml";
     js "a.xml.xml"; js "a.xml.bak"; js "dir/.xml"; js ".xml";
     js "http://h/a.xml?v=1"]
  = [js "chapter-1"; js "c"; js "z"; js "a.xml"; js "a.bak"; js "dir/";
     []; js "http://h/a?v=1"].
Proof. vm_compute. reflexivity. Qed.

End IndexSamples.

#[local] Hint Resolve Framed_getFileInfo Framed_testFileExists
  Framed_tryIndexFile Framed_tryDirectoryListing Framed_tryPatternScanning
  Framed_checkChaptersJson Framed_discoverFiles Framed_scanDirectory : framed.

(** ** Histories: the content cache *)

Section Histories.

Context {World Callback : Type} {env : Collaborators World Callback}
  {host : Host World Callback}.
Implicit Types (s : @Sys World Callback) (c : @Call Callback).

Lemma Framed_contentCache {A} (m : @M World Callback A) s :
  Framed m -> contentCache (self (m s).2) = contentCache (self s).
Proof. intros Hm. apply (Hm s). Qed.

Lemma performScan_contentCache s basePath :
  contentCache (self (performScan basePath s).2) = contentCache (self s).
Proof.
  rewrite <- (Framed_contentCache (scanDirectory basePath) s)
    by apply Framed_scanDirectory.
  unfold performScan, bind.
  destruct (scanDirectory basePath s) as [currentFiles s1].
  rewrite detectChanges_eq. unfold assign, this. cbn [self snd].
  destruct (hasChanges _ && handler_truthy _); [| reflexivity].
  cbn [onChange set_lastScanResults].
  destruct (onChange (self s1)) as [| [f | t]]; [reflexivity | | reflexivity].
  unfold call_host. cbn [world].
  now destruct (invoke f _ (world s1)) as [[|] w].
Qed.

Lemma refreshFile_contentCache s fileName basePath :
  contentCache (self (refreshFile fileName basePath s).2)
  = delete (basePath ++ fileName ++ js ".xml") (contentCache (self s)).
Proof.
  unfold refreshFile, bind, assign.
  now rewrite Framed_contentCache by apply Framed_getFileInfo.
Qed.

Lemma cleanupCache_contentCache s maxAge :
  contentCache (self (cleanupCache maxAge s).2) = contentCache (self s).
Proof.
  unfold cleanupCache, bind, now, assign.
  now destruct (Date_now (world s)).
Qed.

Lemma call_onChange_contentCache s callback :
  contentCache (self (call_onChange callback s).2) = contentCache (self s).
Proof.
  unfold call_onChange, bind, this.
  destruct (onChange (self s)) as [| [f | t]]; [reflexivity | | reflexivity].
  now destruct (apply_handler f callback (world s)) as [returned w].
Qed.

(** No method adds an entry to [this.contentCache]. *)
Lemma run_contentCache c s :
  contentCache (self s) = ∅ -> contentCache (self (run c s)) = ∅.
Proof.
  intros Hs. destruct c; cbn [run];
    first
      [ rewrite Framed_contentCache by eauto with framed; exact Hs
      | rewrite performScan_contentCache; exact Hs
      | rewrite refreshFile_contentCache, Hs; apply delete_empty
      | rewrite cleanupCache_contentCache; exact Hs
      | rewrite call_onChange_contentCache; exact Hs
      | exact Hs ].
Qed.

Lemma run_all_contentCache calls : forall s,
  contentCache (self s) = ∅ -> contentCache (self (run_all calls s)) = ∅.
Proof.
  unfold run_all. induction calls as [|c calls IH]; intros s Hs.
  - exact Hs.
  - cbn [fold_left]. now apply IH, run_contentCache.
Qed.

(** Whatever was called before, on whatever world, [getCachedContent]
    answers [undefined]. *)
Lemma getCachedContent_undefined (w : World) calls fileName basePath :
  (getCachedContent fileName basePath (run_all calls (boot w))).1 = None.
Proof.
  unfold getCachedContent, bind, this, ret. cbn [fst].
  rewrite run_all_contentCache by reflexivity. apply lookup_empty.
Qed.

End Histories.

(** C9.  The server holds [/docs/chapter1.xml]; a scan finds it and
    fetches its content, a forced refresh fetches it again, and
    [getCachedContent] for that name still answers [undefined]: nothing
    ever writes [this.contentCache]. *)
Theorem getCachedContent_after_fetching :
  let env :=
    Sample.world_of (Sample.serving (js "/docs/chapter1.xml") (js "<quiz/>")) in
  let '(report, s1) := performScan (js "/docs/") Sample.start in
  let '(info, s2) := refreshFile (js "chapter1") (js "/docs/") s1 in
  let '(cached, _) := getCachedContent (js "chapter1") (js "/docs/") s2 in
  lastScanResults (self s1)
  = [{| name := js "chapter1"; url := js "/docs/chapter1.xml";
        checksum := generateChecksum (js "<quiz/>");
        lastModified := js "2024-01-01T00:00:00.000Z"; size := 7 |}] ∧
  info
  = Present (js "<quiz/>") (generateChecksum (js "<quiz/>"))
      (js "2024-01-01T00:00:00.000Z") 7 ∧
  cached = None.
Proof. vm_compute. repeat split. Qed.

(** * Further properties *)

(** ** What the fingerprint tells apart *)

Section Sensitivity.

Implicit Types (a b p t content : jsstring) (c d : N).

Lemma generateChecksum_hash content :
  generateChecksum content = toString 36 (hash_from 0 content).
Proof.
  unfold generateChecksum, hash_from. f_equal.
  apply fold_left_pointwise. intros hash code. apply checksum_round.
Qed.

Lemma toString_inj n m : toString 36 n = toString 36 m -> n = m.
Proof.
  intros H. rewrite <- (numeral_value_toString 36 n) by lia.
  rewrite <- (numeral_value_toString 36 m) by lia. now rewrite H.
Qed.

Lemma toInt32_congruent x y :
  toInt32 x = toInt32 y <-> (2 ^ 32 | x - y).
Proof.
  split.
  - intros H. destruct (toInt32_shift x) as [k Hk].
    destruct (toInt32_shift y) as [k' Hk'].
    exists (k' - k). lia.
  - intros [k Hk]. replace x with (y + k * 2 ^ 32) by lia.
    apply toInt32_periodic.
Qed.

(** One round keeps apart what is apart: 31 is odd. *)
Lemma round_congruent h1 h2 code :
  (2 ^ 32 | (h1 * 31 + code) - (h2 * 31 + code)) <-> (2 ^ 32 | h1 - h2).
Proof.
  replace (h1 * 31 + code - (h2 * 31 + code)) with (31 * (h1 - h2)) by lia.
  split.
  - intros H. apply Z.gauss with (m := 31); [exact H |]. reflexivity.
  - intros H. now apply Z.divide_mul_r.
Qed.

Lemma toInt32_difference x y :
  (2 ^ 32 | toInt32 x - toInt32 y) <-> (2 ^ 32 | x - y).
Proof.
  destruct (toInt32_shift x) as [k ->]. destruct (toInt32_shift y) as [k' ->].
  split; intros [q Hq].
  - exists (q - k + k'). lia.
  - exists (q + k - k'). lia.
Qed.

Lemma hash_from_congruent t : forall h1 h2,
  (2 ^ 32 | hash_from h1 t - hash_from h2 t) <-> (2 ^ 32 | h1 - h2).
Proof.
  unfold hash_from.
  induction t as [|code t IH]; intros h1 h2; cbn [fold_left].
  - reflexivity.
  - rewrite IH, toInt32_difference. apply round_congruent.
Qed.

Lemma hash_from_range t : forall h,
  - 2 ^ 31 <= h < 2 ^ 31 -> - 2 ^ 31 <= hash_from h t < 2 ^ 31.
Proof.
  unfold hash_from. induction t as [|code t IH]; intros h Hh; cbn [fold_left].
  - exact Hh.
  - apply IH, toInt32_range.
Qed.

Lemma congruent_in_range x y :
  - 2 ^ 31 <= x < 2 ^ 31 -> - 2 ^ 31 <= y < 2 ^ 31 ->
  (2 ^ 32 | x - y) -> x = y.
Proof. intros Hx Hy [k Hk]. nia. Qed.

Lemma hash_from_app h a t : hash_from h (a ++ t) = hash_from (hash_from h a) t.
Proof. unfold hash_from. apply fold_left_app. Qed.

(** X2.  Appending the same text to two contents keeps their fingerprints
    equal when they were equal and different when they were different:
    the multiplier 31 is odd, so a round of the loop loses nothing of the
    accumulator. *)
Theorem generateChecksum_suffix a b t :
  generateChecksum (a ++ t) = generateChecksum (b ++ t)
  <-> generateChecksum a = generateChecksum b.
Proof.
  rewrite !generateChecksum_hash, !hash_from_app. split.
  - intros H%toString_inj. f_equal.
    apply congruent_in_range; try (apply hash_from_range; lia).
    apply (hash_from_congruent t). rewrite H. exists 0. lia.
  - intros H%toString_inj. now rewrite H.
Qed.

(** X1.  Exchanging one code unit changes the fingerprint: two contents
    that differ in exactly one position, whatever stands before and after
    it, never have the same fingerprint.  (Code units are below 2^16; the
    proof needs them below 2^32 only.) *)
Theorem generateChecksum_substitution p c d t :
  (c < 2 ^ 32)%N -> (d < 2 ^ 32)%N -> c ≠ d ->
  generateChecksum (p ++ c :: t) ≠ generateChecksum (p ++ d :: t).
Proof.
  intros Hc Hd Hne. rewrite !generateChecksum_hash, !hash_from_app.
  intros H%toString_inj. cbn [hash_from fold_left] in H.
  fold (hash_from (toInt32 (hash_from 0 p * 31 + Z.of_N c)) t) in H.
  fold (hash_from (toInt32 (hash_from 0 p * 31 + Z.of_N d)) t) in H.
  assert (Hdiv : (2 ^ 32 | Z.of_N c - Z.of_N d)).
  { replace (Z.of_N c - Z.of_N d)
      with ((hash_from 0 p * 31 + Z.of_N c) - (hash_from 0 p * 31 + Z.of_N d))
      by lia.
    apply toInt32_difference, (hash_from_congruent t).
    rewrite H. exists 0. lia. }
  destruct Hdiv as [k Hk]. apply Hne. lia.
Qed.

End Sensitivity.

(** X1 on "abc" and "abd". *)
Lemma generateChecksum_substitution_abc :
  (99 < 2 ^ 32)%N ∧ (100 < 2 ^ 32)%N ∧ 99%N ≠ 100%N ∧
  generateChecksum (js "abc") ≠ generateChecksum (js "abd").
Proof.
  assert (H1 : (99 < 2 ^ 32)%N) by reflexivity.
  assert (H2 : (100 < 2 ^ 32)%N) by reflexivity.
  assert (H3 : 99%N ≠ 100%N) by discriminate.
  repeat split; try assumption.
  exact (generateChecksum_substitution (js "ab") 99 100 [] H1 H2 H3).
Defined.

(** Two contents that differ in two positions may collide. *)
Example generateChecksum_collision :
  js "Aa" ≠ js "BB" ∧ generateChecksum (js "Aa") = generateChecksum (js "BB").
Proof. split; [discriminate | reflexivity]. Qed.

Section Width.







End Width.

(** ** The cache of existence answers *)

Section ExistenceCache.

Context {World Callback : Type} {env : Collaborators World Callback}.
Implicit Types (s : @Sys World Callback) (url : jsstring).

(** The three ways a probe of [url] ends. *)
Lemma testFileExists_cases s url :
  let key := js "exists:" ++ url in
  (exists b w,
     fresh_entry url s = (Some b, w) ∧
     testFileExists url s = (b, with_world s w)) ∨
  (exists w response w1 t w2,
     fresh_entry url s = (None, w) ∧
     fetch (head_of url) w = (Fulfilled response, w1) ∧
     Date_now w1 = (t, w2) ∧
     testFileExists url s
     = (ok response,
        {| self :=
             set_cache
               (<[key := {| c_exists := ok response; timestamp := t |}]>
                  (cache (self s)))
               (self s);
           world := w2;
           exchanges := exchanges s ++ [(head_of url, Fulfilled response)] |})) ∨
  (exists w w1,
     fresh_entry url s = (None, w) ∧
     fetch (head_of url) w = (Rejected, w1) ∧
     testFileExists url s
     = (false,
        {| self := self s; world := w1;
           exchanges := exchanges s ++ [(head_of url, Rejected)] |})).
Proof.
  intros key. destruct (fresh_entry url s) as [[b |] w] eqn:Hfresh.
  - left. exists b, w. split; [reflexivity |].
    now apply testFileExists_hit.
  - right. rewrite (testFileExists_miss _ _ _ Hfresh).
    destruct (fetch (head_of url) w) as [[| response] w1] eqn:Hf.
    + right. exists w, w1. split; [reflexivity |]. split; [exact Hf |].
      exact (probe_rejected (with_world s w) url key w1 Hf).
    + left. destruct (Date_now w1) as [t w2] eqn:Ht.
      exists w, response, w1, t, w2.
      split; [reflexivity |]. split; [exact Hf |]. split; [exact Ht |].
      exact (probe_fulfilled (with_world s w) url key response w1 t w2 Hf Ht).
Qed.

(** A probe leaves all but the cache alone and issues at most one request,
    a [HEAD] for its URL. *)
Lemma testFileExists_touches_one s url :
  let '(b, s') := testFileExists url s in
  same_but_cache (self s) (self s') ∧
  (exchanges s' = exchanges s ∨
   exists r, exchanges s' = exchanges s ++ [(head_of url, r)]).
Proof.
  destruct (testFileExists_cases s url)
    as [(b & w & Hfresh & ->) |
        [(w & response & w1 & t & w2 & Hfresh & Hf & Ht & ->) |
         (w & w1 & Hfresh & Hf & ->)]];
    cbn [with_world self exchanges].
  - split; [apply same_but_cache_refl | now left].
  - split; [apply same_but_cache_set | right; eauto].
  - split; [apply same_but_cache_refl | right; eauto].
Qed.

(** X4.  A probe touches one entry.  [testFileExists(url)] leaves every
    entry of the existence cache as it was but the one of key
    ['exists:' + url], changes nothing of the scanner but that cache, and
    sends no request or one, a [HEAD] for [url]; when it answers [true],
    the cache holds a positive answer for [url] afterwards. *)
Theorem testFileExists_touches_one_entry s url :
  let key := js "exists:" ++ url in
  let '(b, s') := testFileExists url s in
  (forall k, k ≠ key -> cache (self s') !! k = cache (self s) !! k) ∧
  same_but_cache (self s) (self s') ∧
  (exchanges s' = exchanges s ∨
   exists r, exchanges s' = exchanges s ++ [(head_of url, r)]) ∧
  (b = true ->
   exists e, cache (self s') !! key = Some e ∧ c_exists e = true).
Proof.
  intros key.
  destruct (testFileExists_cases s url)
    as [(b & w & Hfresh & ->) |
        [(w & response & w1 & t & w2 & Hfresh & Hf & Ht & ->) |
         (w & w1 & Hfresh & Hf & ->)]].
  - cbn [with_world self exchanges]. repeat split; [now left |].
    intros ->. unfold fresh_entry in Hfresh. fold key in Hfresh.
    destruct (cache (self s) !! key) as [e |]; [| discriminate].
    destruct (Date_now (world s)) as [t w'].
    destruct (t - timestamp e <? 30000); [| discriminate].
    exists e. split; [reflexivity | congruence].
  - cbn [self exchanges cache set_cache]. repeat split.
    + intros k Hk. now rewrite lookup_insert_ne.
    + right. eauto.
    + intros Hok. eexists. rewrite lookup_insert_eq. split; [reflexivity |].
      exact Hok.
  - cbn [self exchanges]. repeat split; [right; eauto | discriminate].
Qed.

(** X5.  An answer is good for less than thirty seconds.  A probe that
    found no fresh entry asked the server and stored the answer at [t1];
    the next probe of the same URL reads the clock at [t2] with
    [t2 - t1 >= 30000].  Then the second probe asks the server again,
    returns what the server says now, and overwrites the entry with that
    answer and the time of writing. *)
Theorem testFileExists_expired s url w response1 w1 t1 w2 t2 w3 response2 w4 t3 w5 :
  fresh_entry url s = (None, w) ->
  fetch (head_of url) w = (Fulfilled response1, w1) ->
  Date_now w1 = (t1, w2) ->
  Date_now w2 = (t2, w3) ->
  30000 <= t2 - t1 ->
  fetch (head_of url) w3 = (Fulfilled response2, w4) ->
  Date_now w4 = (t3, w5) ->
  let '(b1, s1) := testFileExists url s in
  let '(b2, s2) := testFileExists url s1 in
  b1 = ok response1 ∧ b2 = ok response2 ∧
  exchanges s2
  = exchanges s ++
    [(head_of url, Fulfilled response1); (head_of url, Fulfilled response2)] ∧
  cache (self s2) !! (js "exists:" ++ url)
  = Some {| c_exists := ok response2; timestamp := t3 |}.
Proof.
  intros Hfresh Hf1 Ht1 Ht2 Hold Hf2 Ht3.
  set (key := js "exists:" ++ url).
  rewrite (testFileExists_miss _ _ _ Hfresh). fold key.
  rewrite (probe_fulfilled (with_world s w) url key response1 w1 t1 w2 Hf1 Ht1).
  cbn [with_world self exchanges].
  match goal with |- context [testFileExists url ?st] => set (s1 := st) end.
  assert (Hstale : fresh_entry url s1 = (None, w3)).
  { unfold fresh_entry, s1. cbn [self cache set_cache world]. fold key.
    rewrite lookup_insert_eq, Ht2. cbn [timestamp].
    destruct (Z.ltb_spec (t2 - t1) 30000); [lia | reflexivity]. }
  rewrite (testFileExists_miss _ _ _ Hstale). fold key.
  rewrite (probe_fulfilled (with_world s1 w3) url key response2 w4 t3 w5 Hf2 Ht3).
  cbn [with_world self exchanges cache set_cache s1].
  repeat split.
  - now rewrite <- app_assoc.
  - now rewrite lookup_insert_eq.
Qed.

(** X6.  [cleanupCache(maxAge)] reads the clock once and keeps exactly the
    existence answers whose age then is at most [maxAge], one hour when
    the argument is left out: an entry goes only when it is strictly
    older.  The rest of the scanner stays as it was and no request is
    sent. *)
Theorem cleanupCache_keeps_young s maxAge :
  let limit := default 3600000 maxAge in
  let '(t, w) := Date_now (world s) in
  let '(_, s') := cleanupCache maxAge s in
  (forall k e,
     cache (self s') !! k = Some e
     <-> cache (self s) !! k = Some e ∧ t - timestamp e <= limit) ∧
  same_but_cache (self s) (self s') ∧
  world s' = w ∧ exchanges s' = exchanges s.
Proof.
  intros limit. unfold cleanupCache, bind, now, assign. fold limit.
  destruct (Date_now (world s)) as [t w].
  cbn [self cache set_cache world exchanges]. split; [| repeat split].
  intros k e. rewrite map_lookup_filter_Some. cbn [snd].
  split; intros [H Hyoung]; (split; [exact H | lia]).
Qed.

(** [getFileInfo] issues one [GET], leaves the scanner alone, and what it
    returns comes from one body. *)
Lemma getFileInfo_exchange s url :
  let '(info, s') := getFileInfo url s in
  self s' = self s ∧
  (exists r, exchanges s' = exchanges s ++ [(get_of url, r)]) ∧
  match info with
  | Present content checksum _ size =>
      checksum = generateChecksum content ∧ size = strlen content
  | Missing => True
  end.
Proof.
  unfold getFileInfo, bind, await_fetch. fold (get_of url).
  destruct (fetch (get_of url) (world s)) as [r w1].
  destruct r as [| response]; [cbn; eauto |].
  destruct (ok response); [| cbn; eauto].
  destruct (text response) as [content |]; [| cbn; eauto].
  rewrite or_else_usable.
  destruct (usable (headers_get response (js "last-modified"))) as [v|];
    [cbn; eauto |].
  rewrite or_else_usable.
  destruct (usable (headers_get response (js "date"))) as [d|];
    [cbn; eauto |].
  unfold isoNow. cbn [world].
  destruct (Date_toISOString w1) as [iso w2]. cbn. eauto.
Qed.

(** X7.  [refreshFile(fileName, basePath)] deletes the existence answer
    and the content entry of the file's URL, leaves the retained snapshot
    and the handler slot alone and sends one [GET] for the URL; the probe
    of that URL that comes next finds nothing in the cache and sends a
    [HEAD]. *)
Theorem refreshFile_forgets_answer s fileName basePath :
  let url := basePath ++ fileName ++ js ".xml" in
  let key := js "exists:" ++ url in
  let '(info, s1) := refreshFile fileName basePath s in
  cache (self s1) = delete key (cache (self s)) ∧
  contentCache (self s1) = delete url (contentCache (self s)) ∧
  lastScanResults (self s1) = lastScanResults (self s) ∧
  onChange (self s1) = onChange (self s) ∧
  (exists r, exchanges s1 = exchanges s ++ [(get_of url, r)]) ∧
  let '(_, s2) := testFileExists url s1 in
  exists r, exchanges s2 = exchanges s1 ++ [(head_of url, r)].
Proof.
  intros url key. unfold refreshFile, bind, assign. fold url key.
  match goal with |- context [getFileInfo url ?st] => set (s0 := st) end.
  pose proof (getFileInfo_exchange s0 url) as Hget.
  destruct (getFileInfo url s0) as [info s1].
  destruct Hget as (Hself & [r Hex] & _).
  rewrite Hself, Hex.
  do 4 (split; [reflexivity |]). split; [eauto |].
  destruct (testFileExists_cases s1 url)
    as [(b & w & Hfresh & _) |
        [(w & response & w2 & t & w3 & _ & _ & _ & ->) |
         (w & w2 & _ & _ & ->)]].
  - exfalso. unfold fresh_entry in Hfresh. fold key in Hfresh.
    rewrite Hself in Hfresh. unfold s0 in Hfresh.
    cbn [self cache set_cache set_contentCache] in Hfresh.
    rewrite lookup_delete_eq in Hfresh. discriminate.
  - cbn [exchanges]. rewrite Hex. eauto.
  - cbn [exchanges]. rewrite Hex. eauto.
Qed.

End ExistenceCache.

(** X5 on a sample: the clock advances by thirty seconds at each
    reading, so the second probe finds the answer of the first expired. *)
Lemma testFileExists_expired_sample :
  let env := Servers.paced 30000 Sample.generous in
  let url := js "/docs/quiz-1.xml" in
  let '(b1, s1) := testFileExists url Sample.start in
  let '(b2, s2) := testFileExists url s1 in
  b1 = true ∧ b2 = true ∧
  exchanges s2
  = [(head_of url, Fulfilled (Sample.page []));
     (head_of url, Fulfilled (Sample.page []))] ∧
  cache (self s2) !! (js "exists:" ++ url)
  = Some {| c_exists := true; timestamp := 60000 |}.
Proof.
  intros env url.
  exact
    (testFileExists_expired (env := env) Sample.start url
       0 (Sample.page []) 0 0 30000 30000 60000 (Sample.page []) 60000
       60000 90000
       eq_refl eq_refl eq_refl eq_refl ltac:(lia) eq_refl eq_refl).
Defined.

(** ** Pattern scanning *)

Section PatternScanning.

Context {World Callback : Type} {env : Collaborators World Callback}.
Implicit Types (s : @Sys World Callback) (basePath : jsstring).

Lemma bind_apply {A B} (m : @M World Callback A)
    (k : A -> @M World Callback B) s :
  bind m k s = let '(a, s') := m s in k a s'.
Proof. reflexivity. Qed.

Lemma for_of_app {A B} (l1 l2 : list A) (body : B -> A -> @M World Callback B) :
  forall b s,
    for_of (l1 ++ l2) body b s
    = bind (for_of l1 body b) (for_of l2 body) s.
Proof.
  induction l1 as [|a l1 IH]; intros b s; cbn [for_of app].
  - reflexivity.
  - unfold bind in *. destruct (body b a s) as [b' s']. apply IH.
Qed.

Lemma for_of_ext {A B} (l : list A) (body body' : B -> A -> @M World Callback B) :
  (forall b a s, body b a s = body' b a s) ->
  forall b s, for_of l body b s = for_of l body' b s.
Proof.
  intros Hbody. induction l as [|a l IH]; intros b s; cbn [for_of].
  - reflexivity.
  - unfold bind. rewrite Hbody. destruct (body' b a s) as [b' s']. apply IH.
Qed.

Lemma for_of_flat_map {A A' B} (f : A -> list A') (l : list A)
    (body : B -> A' -> @M World Callback B) :
  forall b s,
    for_of (flat_map f l) body b s
    = for_of l (fun b a => for_of (f a) body b) b s.
Proof.
  induction l as [|a l IH]; intros b s; cbn [flat_map for_of].
  - reflexivity.
  - rewrite for_of_app. unfold bind.
    destruct (for_of (f a) body b s) as [b' s']. apply IH.
Qed.

(** The nested loops of [tryPatternScanning] are one loop over the
    candidates. *)
Lemma tryPatternScanning_flat basePath s :
  tryPatternScanning basePath s
  = for_of pattern_candidates (probe_candidate basePath) [] s.
Proof.
  unfold tryPatternScanning, pattern_candidates.
  rewrite for_of_app, !bind_apply, for_of_flat_map.
  match goal with
  | |- ?lhs = ?rhs =>
      match lhs with
      | context [for_of (seqZ 1 maxChecks) ?b1 [] s] =>
          match rhs with
          | context [for_of (seqZ 1 maxChecks) ?b2 [] s] =>
              rewrite (for_of_ext (seqZ 1 maxChecks) b1 b2)
          end
      end
  end.
  - destruct (for_of (seqZ 1 maxChecks) _ [] s) as [found s1].
    apply for_of_ext. intros b a s'. reflexivity.
  - intros b i s'. cbv beta. rewrite for_of_flat_map.
    apply for_of_ext. intros found pattern s''. cbv zeta.
    unfold numbered. cbn [for_of]. unfold probe_candidate, bind, ret.
    rewrite <- !(app_assoc pattern).
    destruct (testFileExists _ s'') as [e1 s2].
    destruct (testFileExists _ s2) as [e2 s3]. reflexivity.
Qed.


Lemma pattern_candidates_length : length pattern_candidates = 740%nat.
Proof. reflexivity. Qed.

(** The loop over candidates keeps, in order, names of the list and issues,
    in order, [HEAD] requests for names of the list. *)
Lemma probe_loop basePath candidates : forall foundFiles s,
  let '(found, s') := for_of candidates (probe_candidate basePath) foundFiles s in
  same_but_cache (self s) (self s') ∧
  exists kept tried,
    found = foundFiles ++ kept ∧ kept `sublist_of` candidates ∧
    exchanges s' = exchanges s ++ tried ∧
    map fst tried
      `sublist_of`
      map (fun name => head_of (basePath ++ name ++ js ".xml")) candidates.
Proof.
  induction candidates as [|name candidates IH]; intros foundFiles s.
  - cbn. split; [apply same_but_cache_refl |]. exists [], [].
    now rewrite !app_nil_r.
  - cbn [for_of]. rewrite bind_apply. unfold probe_candidate at 1.
    rewrite bind_apply.
    pose proof (testFileExists_touches_one s (basePath ++ name ++ js ".xml"))
      as Hone.
    destruct (testFileExists (basePath ++ name ++ js ".xml") s) as [e s1].
    destruct Hone as (Hframe & Hex). cbn [ret].
    specialize (IH (if e then foundFiles ++ [name] else foundFiles) s1).
    destruct (for_of candidates (probe_candidate basePath) _ s1)
      as [found s'].
    destruct IH as (Hframe' & kept & tried & -> & Hkept & Hex' & Htried).
    split; [eapply same_but_cache_trans; eassumption |].
    exists (if e then name :: kept else kept).
    destruct Hex as [Hex | [r Hex]].
    + exists tried. rewrite Hex', Hex. cbn [map].
      repeat split.
      * destruct e; [now rewrite <- app_assoc | reflexivity].
      * destruct e; [now apply sublist_skip | now apply sublist_cons].
      * now apply sublist_cons.
    + exists ((head_of (basePath ++ name ++ js ".xml"), r) :: tried).
      rewrite Hex', Hex, <- app_assoc. cbn [map fst app].
      repeat split.
      * destruct e; [now rewrite <- app_assoc | reflexivity].
      * destruct e; [now apply sublist_skip | now apply sublist_cons].
      * now apply sublist_skip.
Qed.

(** X8.  Pattern scanning is bounded.  The names [tryPatternScanning]
    returns are a subsequence of its 740 candidates (thirty numbers, each
    with the twelve patterns, plain and padded to two digits, then the
    twenty common names), in the order of the loops; the requests it sends
    are [HEAD]s for candidate URLs, in that order and at most one for each
    candidate, so at most 740; of the scanner only the existence cache
    changes. *)
Theorem tryPatternScanning_bounded s basePath :
  let '(found, s') := tryPatternScanning basePath s in
  found `sublist_of` pattern_candidates ∧
  same_but_cache (self s) (self s') ∧
  exists tried,
    exchanges s' = exchanges s ++ tried ∧
    map fst tried
      `sublist_of`
      map (fun name => head_of (basePath ++ name ++ js ".xml"))
        pattern_candidates ∧
    (length tried <= 740)%nat.
Proof.
  rewrite tryPatternScanning_flat.
  pose proof (probe_loop basePath pattern_candidates [] s) as H.
  destruct (for_of pattern_candidates (probe_candidate basePath) [] s)
    as [found s'].
  destruct H as (Hframe & kept & tried & -> & Hkept & Hex & Htried).
  split; [exact Hkept |]. split; [exact Hframe |].
  exists tried. split; [exact Hex |]. split; [exact Htried |].
  apply sublist_length in Htried.
  rewrite !length_map in Htried.
  apply (Nat.le_trans _ _ _ Htried), Nat.eq_le_incl.
  exact pattern_candidates_length.
Qed.

End PatternScanning.

(** ** The manifest and the directory listing *)

Section Listings.

Context {World Callback : Type} {env : Collaborators World Callback}.
Implicit Types (s : @Sys World Callback) (basePath n : jsstring).

Lemma last_rev (l : jsstring) : last (rev l) = head l.
Proof. destruct l as [|a l]; [reflexivity |]. cbn. apply last_snoc. Qed.

Lemma head_rev (l : jsstring) : head (rev l) = last l.
Proof. now rewrite <- (rev_involutive l) at 2; rewrite last_rev. Qed.

Lemma trim_start_head (l : jsstring) c :
  head (trim_start l) = Some c -> is_space c = false.
Proof.
  induction l as [|a l IH]; cbn [trim_start]; [discriminate |].
  destruct (is_space a) eqn:E; [exact IH |]. cbn. congruence.
Qed.

Lemma trim_start_suffix (l : jsstring) : exists pre, l = pre ++ trim_start l.
Proof.
  induction l as [|a l [pre IH]]; cbn [trim_start]; [now exists [] |].
  destruct (is_space a); [| now exists []].
  exists (a :: pre). cbn. congruence.
Qed.

Lemma trim_trimmed (l : jsstring) : trimmed (trim l).
Proof.
  unfold trimmed, trim. split; intros c.
  - rewrite head_rev. intros Hlast.
    destruct (trim_start_suffix (rev (trim_start l))) as [pre Hpre].
    assert (Hl : last (rev (trim_start l)) = Some c).
    { rewrite Hpre.
      destruct (trim_start (rev (trim_start l))) as [|x v] eqn:E;
        [discriminate |].
      rewrite last_app. now rewrite Hlast. }
    rewrite last_rev in Hl. now apply trim_start_head in Hl.
  - rewrite last_rev. apply trim_start_head.
Qed.

(** The names of a manifest: each is the trim of a string entry, not
    empty, with no white space at either end. *)
Lemma elem_of_chapter_names chapters n :
  n ∈ chapter_names chapters
  <-> n ≠ [] ∧ exists str, JString str ∈ chapters ∧ n = trim str.
Proof.
  unfold chapter_names.
  rewrite list_elem_of_In, filter_In, in_map_iff. split.
  - intros [(str & <- & Hin) Hlen]. split.
    + intros E. rewrite E in Hlen. discriminate.
    + exists str. split; [| reflexivity].
      apply list_elem_of_In, list_elem_of_omap in Hin as (item & Hitem & Hsome).
      destruct item as [str' |]; [| discriminate].
      destruct (truthy str'); [| discriminate]. now injection Hsome as ->.
  - intros (Hne & str & Hin & ->). split.
    + exists str. split; [reflexivity |].
      apply list_elem_of_In, list_elem_of_omap. exists (JString str).
      split; [exact Hin |].
      destruct str; [now destruct Hne | reflexivity].
    + unfold strlen. destruct (trim str); [now destruct Hne | reflexivity].
Qed.

(** X9.  [checkChaptersJson] sends one [GET], for
    [basePath + 'chapters.json'], and leaves the scanner alone.  When the
    response is ok and its body parses to an array, the names returned are
    exactly the trimmed string elements of the array that are not empty
    after trimming; in every other case (a rejected request, a response
    that is not ok, a body that is not JSON or not an array) no name is
    returned.  A returned name is never empty and has no white space at
    either end. *)
Theorem checkChaptersJson_names s basePath :
  let get := get_of (basePath ++ js "chapters.json") in
  let '(r, _) := fetch get (world s) in
  let '(names, s') := checkChaptersJson basePath s in
  self s' = self s ∧
  exchanges s' = exchanges s ++ [(get, r)] ∧
  (forall n, n ∈ names -> n ≠ [] ∧ trimmed n) ∧
  match r with
  | Fulfilled response =>
      if ok response then
        match json response with
        | Some (JArray chapters) =>
            forall n,
              n ∈ names
              <-> n ≠ [] ∧ exists str, JString str ∈ chapters ∧ n = trim str
        | _ => names = []
        end
      else names = []
  | Rejected => names = []
  end.
Proof.
  intros get. unfold checkChaptersJson. rewrite bind_apply.
  unfold await_fetch. fold (get_of (basePath ++ js "chapters.json")). fold get.
  destruct (fetch get (world s)) as [r w].
  assert (Hnil : forall n : jsstring, n ∈ [] -> n ≠ [] ∧ trimmed n)
    by (intros n H; inversion H).
  destruct r as [| response];
    [cbn; split; [| split; [| split]]; try reflexivity; exact Hnil |].
  destruct (ok response);
    [| cbn; split; [| split; [| split]]; try reflexivity; exact Hnil].
  destruct (json response) as [[chapters |] |];
    [| cbn; split; [| split; [| split]]; try reflexivity; exact Hnil ..].
  unfold ret. cbv beta iota. cbn [self exchanges].
  split; [reflexivity |]. split; [reflexivity |]. split.
  - intros n (Hne & str & _ & ->)%elem_of_chapter_names.
    split; [exact Hne | apply trim_trimmed].
  - apply elem_of_chapter_names.
Qed.

Lemma elem_of_link_names hrefs n :
  n ∈ link_names hrefs
  <-> n ≠ [] ∧
      exists href,
        href ∈ hrefs ∧ href ≠ [] ∧
        startsWith href (js "http") = false ∧
        startsWith href (js "#") = false ∧ n = extract_name href.
Proof.
  unfold link_names.
  rewrite list_elem_of_In, filter_In, in_map_iff. split.
  - intros [(href & <- & Hin) Hlen]. split.
    + intros E. rewrite E in Hlen. discriminate.
    + exists href. apply filter_In in Hin as [Hin Hkeep].
      apply andb_true_iff in Hkeep as [Hkeep Hhash].
      apply andb_true_iff in Hkeep as [Htruthy Hhttp].
      apply negb_true_iff in Hhash, Hhttp.
      repeat split; try assumption.
      * now apply list_elem_of_In.
      * intros ->. discriminate.
  - intros (Hne & href & Hin & Hhref & Hhttp & Hhash & ->). split.
    + exists href. split; [reflexivity |]. apply filter_In. split.
      * now apply list_elem_of_In.
      * rewrite Hhttp, Hhash. destruct href; [now destruct Hhref | reflexivity].
    + unfold strlen.
      destruct (extract_name href); [now destruct Hne | reflexivity].
Qed.

(** Closes a case of [tryDirectoryListing] that returns no link. *)
Ltac no_links :=
  unfold ret; cbv beta iota; cbn [self exchanges]; split; [reflexivity |]; split; [reflexivity |];
  intros n; split;
  [ intros Hin; inversion Hin
  | intros (_ & response' & ct' & html' & hrefs' & href' & Hr & Hok' & Hct'
            & Hinc' & Ht' & Hh' & _);
    try discriminate; injection Hr as <-; congruence ].

(** X10.  [tryDirectoryListing] sends one [GET], for [basePath] itself,
    and leaves the scanner alone.  A name is returned exactly when it is
    not empty and is the logical name of a link of the listing: the
    response is ok, its content type contains ['text/html'], the body
    parses, and the link's [href] is not empty and starts neither with
    ['http'] nor with ['#']. *)
Theorem tryDirectoryListing_links s basePath :
  let get := get_of basePath in
  let '(r, _) := fetch get (world s) in
  let '(links, s') := tryDirectoryListing basePath s in
  self s' = self s ∧
  exchanges s' = exchanges s ++ [(get, r)] ∧
  forall n,
    n ∈ links
    <-> n ≠ [] ∧
        exists response contentType html hrefs href,
          r = Fulfilled response ∧ ok response = true ∧
          headers_get response (js "content-type") = Some contentType ∧
          includes contentType (js "text/html") = true ∧
          text response = Some html ∧ xml_hrefs html = Some hrefs ∧
          href ∈ hrefs ∧ href ≠ [] ∧
          startsWith href (js "http") = false ∧
          startsWith href (js "#") = false ∧ n = extract_name href.
Proof.
  intros get. unfold tryDirectoryListing. rewrite bind_apply.
  unfold await_fetch. fold (get_of basePath). fold get.
  destruct (fetch get (world s)) as [r w].
  destruct r as [| response]; [no_links |].
  destruct (ok response) eqn:Hok; cbn [andb]; [| no_links].
  destruct (headers_get response (js "content-type")) as [ct |] eqn:Hct;
    [| no_links].
  destruct (includes ct (js "text/html")) eqn:Hinc; [| no_links].
  destruct (text response) as [html |] eqn:Htext; [| no_links].
  destruct (xml_hrefs html) as [hrefs |] eqn:Hhrefs; [| no_links].
  assert (Hiff : forall n,
    n ∈ link_names hrefs
    <-> n ≠ [] ∧
        exists response' contentType html' hrefs' href,
          Fulfilled response = Fulfilled response' ∧ ok response' = true ∧
          headers_get response' (js "content-type") = Some contentType ∧
          includes contentType (js "text/html") = true ∧
          text response' = Some html' ∧ xml_hrefs html' = Some hrefs' ∧
          href ∈ hrefs' ∧ href ≠ [] ∧
          startsWith href (js "http") = false ∧
          startsWith href (js "#") = false ∧ n = extract_name href).
  { intros n. rewrite elem_of_link_names. split.
    - intros (Hne & href & H). split; [exact Hne |].
      exists response, ct, html, hrefs, href. tauto.
    - intros (Hne & response' & ct' & html' & hrefs' & href & [= <-] & _ & _
              & _ & Ht & Hh & H).
      split; [exact Hne |]. exists href.
      rewrite Htext in Ht. injection Ht as <-.
      rewrite Hhrefs in Hh. injection Hh as <-. exact H. }
  destruct (link_names hrefs) as [|l ls] eqn:Hlinks;
    unfold ret; cbv beta iota; cbn [self exchanges Z.ltb Z.of_nat length];
    (split; [reflexivity |]; split; [reflexivity |]; exact Hiff).
Qed.

End Listings.

(** ** Discovery and the snapshot *)

Section Discovery.

Context {World Callback : Type} {env : Collaborators World Callback}.
Implicit Types (s : @Sys World Callback) (basePath : jsstring).

Lemma elem_of_set_add foundFiles file n :
  n ∈ set_add foundFiles file <-> n ∈ foundFiles ∨ n = file.
Proof.
  unfold set_add. case_bool_decide as Hin.
  - split; [now left | intros [H | ->]; assumption].
  - now rewrite elem_of_app, list_elem_of_singleton.
Qed.

Lemma elem_of_fold_set_add files : forall foundFiles n,
  n ∈ fold_left set_add files foundFiles <-> n ∈ foundFiles ∨ n ∈ files.
Proof.
  induction files as [|f files IH]; intros foundFiles n; cbn [fold_left].
  - split; [now left | intros [H | H]; [exact H | inversion H]].
  - rewrite IH, elem_of_set_add, elem_of_cons. tauto.
Qed.

(** X11.  [discoverFiles] runs the four strategies in the order index
    file, directory listing, pattern scanning, [chapters.json], each from
    the state the one before left.  The names it returns are pairwise
    distinct, they are exactly the names some strategy returned, and they
    come in the order of their first occurrence. *)
Theorem discoverFiles_union s basePath :
  let '(indexFiles, s1) := tryIndexFile basePath s in
  let '(dirFiles, s2) := tryDirectoryListing basePath s1 in
  let '(patternFiles, s3) := tryPatternScanning basePath s2 in
  let '(chapterFiles, s4) := checkChaptersJson basePath s3 in
  let '(foundFiles, s') := discoverFiles basePath s in
  s' = s4 ∧ NoDup foundFiles ∧
  (forall n,
     n ∈ foundFiles
     <-> n ∈ indexFiles ∨ n ∈ dirFiles ∨ n ∈ patternFiles ∨ n ∈ chapterFiles) ∧
  foundFiles
  = fold_left set_add (indexFiles ++ dirFiles ++ patternFiles ++ chapterFiles)
      [].
Proof.
  unfold discoverFiles. rewrite !bind_apply.
  destruct (tryIndexFile basePath s) as [indexed s1]. rewrite !bind_apply.
  destruct (tryDirectoryListing basePath s1) as [dirFiles s2].
  rewrite !bind_apply.
  destruct (tryPatternScanning basePath s2) as [patternFiles s3].
  rewrite !bind_apply.
  destruct (checkChaptersJson basePath s3) as [chapterFiles s4].
  cbn [ret]. split; [reflexivity |].
  split; [do 4 apply fold_set_add_NoDup; apply NoDup_nil_2 |].
  split.
  - intros n. rewrite !elem_of_fold_set_add.
    split; [intros [[[[H | H] | H] | H] | H]; auto; inversion H | tauto].
  - now rewrite !fold_left_app.
Qed.

Lemma scan_file_exchange basePath fileDetails fileName s :
  let '(fileDetails', s') := scan_file basePath fileDetails fileName s in
  self s' = self s ∧
  (exists r,
     exchanges s'
     = exchanges s ++ [(get_of (basePath ++ fileName ++ js ".xml"), r)]) ∧
  (fileDetails' = fileDetails ∨
   exists content lastModified,
     fileDetails'
     = fileDetails ++
       [{| name := fileName; url := basePath ++ fileName ++ js ".xml";
           checksum := generateChecksum content;
           lastModified := lastModified; size := strlen content |}]).
Proof.
  rewrite scan_file_eq. cbv zeta.
  pose proof (getFileInfo_exchange s (basePath ++ fileName ++ js ".xml")) as H.
  destruct (getFileInfo _ s) as [[| content checksum lastModified size] s'].
  - destruct H as (Hself & Hex & _). repeat split; auto.
  - destruct H as (Hself & Hex & -> & ->). repeat split; auto.
    right. eauto.
Qed.


Lemma scanDirectory_loop basePath fileNames : forall fileDetails s,
  Forall (well_formed_record basePath) fileDetails ->
  let '(files, s') := for_of fileNames (scan_file basePath) fileDetails s in
  self s' = self s ∧
  Forall (well_formed_record basePath) files ∧
  exists gets,
    exchanges s' = exchanges s ++ gets ∧
    map fst gets
    = map (fun n => get_of (basePath ++ n ++ js ".xml")) fileNames.
Proof.
  induction fileNames as [|fileName fileNames IH]; intros fileDetails s Hwf.
  - cbn. repeat split; [exact Hwf |]. exists []. now rewrite app_nil_r.
  - cbn [for_of]. rewrite bind_apply.
    pose proof (scan_file_exchange basePath fileDetails fileName s) as H.
    destruct (scan_file basePath fileDetails fileName s) as [fileDetails' s1].
    destruct H as (Hself & [r Hex] & Hfiles).
    assert (Hwf' : Forall (well_formed_record basePath) fileDetails').
    { destruct Hfiles as [-> | (content & lastModified & ->)]; [exact Hwf |].
      apply Forall_app. split; [exact Hwf |]. apply Forall_singleton.
      split; [reflexivity | eauto]. }
    specialize (IH fileDetails' s1 Hwf').
    destruct (for_of fileNames (scan_file basePath) fileDetails' s1)
      as [files s'].
    destruct IH as (Hself' & Hall & gets & Hex' & Hgets).
    split; [congruence |]. split; [exact Hall |].
    exists ((get_of (basePath ++ fileName ++ js ".xml"), r) :: gets).
    rewrite Hex', Hex, <- app_assoc. cbn [map fst app].
    split; [reflexivity | now rewrite Hgets].
Qed.

(** X12.  A snapshot.  After discovery, [scanDirectory] sends one [GET]
    for each discovered name, in order, to [basePath + name + '.xml'], and
    changes nothing of the scanner.  The records it returns have pairwise
    distinct names, in the order of discovery; each has the URL built from
    its name, and a checksum and a size that are those of one and the same
    content. *)
Theorem scanDirectory_snapshot s basePath :
  let '(fileNames, s1) := discoverFiles basePath s in
  let '(files, s') := scanDirectory basePath s in
  NoDup (map name files) ∧
  map name files `sublist_of` fileNames ∧
  Forall (well_formed_record basePath) files ∧
  self s' = self s1 ∧
  exists gets,
    exchanges s' = exchanges s1 ++ gets ∧
    map fst gets
    = map (fun n => get_of (basePath ++ n ++ js ".xml")) fileNames.
Proof.
  pose proof (scanDirectory_NoDup basePath s) as Hnd.
  unfold scanDirectory in *. rewrite bind_apply in *.
  destruct (discoverFiles basePath s) as [fileNames s1].
  pose proof (scanDirectory_loop basePath fileNames [] s1 (Forall_nil_2 _))
    as Hloop.
  destruct (scanDirectory_loop_names basePath fileNames [] s1)
    as (kept & Hsub & Hnames).
  destruct (for_of fileNames (scan_file basePath) [] s1) as [files s'].
  cbn [fst] in *. destruct Hloop as (Hself & Hall & Hgets).
  split; [exact Hnd |]. split; [now rewrite Hnames |].
  split; [exact Hall |]. split; [exact Hself | exact Hgets].
Qed.

End Discovery.

(** ** Reports of particular pairs of snapshots *)

Section Reports.

Implicit Types (A B l : list FileRecord) (m : JsMap.t FileRecord).

Lemma set_fresh {V} (m : JsMap.t V) k v :
  JsMap.has m k = false -> JsMap.set m k v = m ++ [(k, v)].
Proof.
  unfold JsMap.has. induction m as [|[k0 v0] m IH]; cbn; [reflexivity |].
  destruct (streq k0 k); [discriminate |]. intros H. now rewrite IH.
Qed.

(** A snapshot without repeated names is its own map. *)
Lemma build_map_distinct l :
  NoDup (map name l) -> build_map l = map (fun f => (name f, f)) l.
Proof.
  induction l as [|f l IH] using rev_ind; intros Hnd; [reflexivity |].
  rewrite map_app in Hnd. apply NoDup_app in Hnd as (Hl & Hf & _).
  rewrite build_map_snoc, map_app, set_fresh; [now rewrite IH |].
  destruct (JsMap.has (build_map l) (name f)) eqn:E; [| reflexivity].
  apply has_build_map in E. destruct (Hf _ E). left.
Qed.

Lemma only_in_nil_r m : only_in m [] = map snd m.
Proof.
  unfold only_in. f_equal. induction m as [|e m IH]; [reflexivity |].
  cbn [List.filter]. cbn [JsMap.has JsMap.get negb]. now f_equal.
Qed.

Lemma only_in_self l : only_in (build_map l) (build_map l) = [].
Proof.
  unfold only_in.
  assert (H : forall m' : JsMap.t FileRecord,
    (forall e, e ∈ m' -> JsMap.has (build_map l) e.1 = true) ->
    List.filter (fun e => negb (JsMap.has (build_map l) e.1)) m' = []).
  { induction m' as [|e m' IH]; intros Hin; [reflexivity |].
    cbn. rewrite Hin by left. cbn. apply IH. intros e' He'. apply Hin.
    now right. }
  rewrite H; [reflexivity |].
  intros [k f] Hin. apply has_keys. cbn.
  change k with (fst (k, f)). now apply list_elem_of_fmap_2.
Qed.

Lemma map_snd_build_map l :
  NoDup (map name l) -> map snd (build_map l) = l.
Proof.
  intros Hnd. rewrite build_map_distinct by assumption.
  rewrite map_map. cbn. apply map_id.
Qed.

Lemma strict_ne_str_refl a : strict_ne_str a a = false.
Proof. unfold strict_ne_str, streq. now rewrite bool_decide_eq_true_2. Qed.

Lemma differb_refl c : differb c c = false.
Proof.
  unfold differb, strict_ne_num.
  now rewrite !strict_ne_str_refl, Z.eqb_refl.
Qed.

Lemma omap_self_unchanged l :
  omap (unchanged_of (build_map l)) (build_map l) = map snd (build_map l)
  ∧ omap (modified_of (build_map l)) (build_map l) = [].
Proof.
  assert (H : forall m' : JsMap.t FileRecord,
    (forall e, e ∈ m' -> JsMap.get (build_map l) e.1 = Some e.2) ->
    omap (unchanged_of (build_map l)) m' = map snd m' ∧
    omap (modified_of (build_map l)) m' = []).
  { induction m' as [|e m' IH]; intros Hin; [split; reflexivity |].
    destruct IH as [IHu IHm]; [intros e' He'; apply Hin; now right |].
    cbn [omap list_omap map]. unfold unchanged_of at 1, modified_of at 1.
    rewrite Hin by left. rewrite differb_refl.
    fold (omap (unchanged_of (build_map l)) m').
    fold (omap (modified_of (build_map l)) m').
    now rewrite IHu, IHm. }
  apply H. intros [k f] Hin. cbn.
  apply elem_get; [apply build_map_NoDup | exact Hin].
Qed.

End Reports.

Section ReportTheorems.

Context {World Callback : Type}.
Implicit Types (s : @Sys World Callback) (A B : list FileRecord).

Lemma diff_snapshots_first B :
  NoDup (map name B) ->
  diff_snapshots [] B
  = {| hasChanges := nonempty B; added := B; removed := []; modified := [];
       unchanged := []; allFiles := map name B |}.
Proof.
  intros Hnd. rewrite diff_snapshots_eq. cbv zeta.
  change (build_map []) with (@nil (jsstring * FileRecord)).
  rewrite only_in_nil_r, map_snd_build_map by assumption.
  assert (Hm : forall m : JsMap.t FileRecord,
    omap (modified_of []) m = [] ∧ omap (unchanged_of []) m = []).
  { induction m as [|e m [IH1 IH2]]; [split; reflexivity |].
    cbn. split; assumption. }
  destruct (Hm (build_map B)) as [-> ->].
  unfold only_in. cbn. now rewrite !orb_false_r.
Qed.

(** X13.  The first scan.  While no snapshot is retained, every file of
    the current list (names distinct) is reported as added, in order,
    nothing is reported as removed, modified or unchanged, and
    [hasChanges] tells whether the list has a file. *)
Theorem detectChanges_first_scan s B :
  lastScanResults (self s) = [] ->
  NoDup (map name B) ->
  (detectChanges B s).1
  = {| hasChanges := nonempty B; added := B; removed := []; modified := [];
       unchanged := []; allFiles := map name B |}.
Proof.
  intros Hempty Hnd. rewrite detectChanges_eq. cbn [fst].
  rewrite Hempty. now apply diff_snapshots_first.
Qed.

Lemma diff_snapshots_same A :
  NoDup (map name A) ->
  diff_snapshots A A
  = {| hasChanges := false; added := []; removed := []; modified := [];
       unchanged := A; allFiles := map name A |}.
Proof.
  intros Hnd. rewrite diff_snapshots_eq. cbv zeta.
  destruct (omap_self_unchanged A) as [-> ->].
  now rewrite only_in_self, map_snd_build_map.
Qed.

(** X14.  A snapshot (names distinct) compared with itself: no change is
    reported, and every file is unchanged. *)
Theorem detectChanges_same_snapshot s :
  NoDup (map name (lastScanResults (self s))) ->
  (detectChanges (lastScanResults (self s)) s).1
  = {| hasChanges := false; added := []; removed := []; modified := [];
       unchanged := lastScanResults (self s);
       allFiles := map name (lastScanResults (self s)) |}.
Proof.
  intros Hnd. rewrite detectChanges_eq. cbn [fst].
  now apply diff_snapshots_same.
Qed.

(** X15.  What a comparison reports is symmetric.  [diff_snapshots A B] is
    the report of [detectChanges(B)] while [A] is retained; with the two
    snapshots exchanged, [added] and [removed] are exchanged, the modified
    entries are the same with [previous] and [current] exchanged and the
    three flags unchanged, and [hasChanges] is the same. *)
Theorem diff_snapshots_swap A B :
  let r := diff_snapshots A B in
  let r' := diff_snapshots B A in
  added r = removed r' ∧ removed r = added r' ∧
  (forall e, e ∈ modified r <-> mirror e ∈ modified r') ∧
  hasChanges r = hasChanges r'.
Proof.
  intros r r'. subst r r'. rewrite !diff_snapshots_eq.
  cbn [added removed modified hasChanges].
  assert (Hsym : forall c p, differs c p <-> differs p c).
  { unfold differs. intros c p. split; intros [H | [H | H]]; auto. }
  assert (Hflag : forall n c p, entry_of n c p = mirror (entry_of n p c)).
  { intros n c p. unfold entry_of, mirror. cbn. f_equal. f_equal.
    - unfold strict_ne_str, streq. f_equal.
      apply bool_decide_ext. split; congruence.
    - unfold strict_ne_num. f_equal. apply Z.eqb_sym.
    - unfold strict_ne_str, streq. f_equal.
      apply bool_decide_ext. split; congruence. }
  assert (Hmir : forall X Y e,
    e ∈ omap (modified_of (build_map X)) (build_map Y) ->
    mirror e ∈ omap (modified_of (build_map Y)) (build_map X)).
  { intros X Y e (p & c & Hp & Hc & Hd & He)%elem_of_modified.
    apply elem_of_modified. exists c, p. cbn [mirror m_name].
    split; [exact Hc |]. split; [exact Hp |].
    split; [now apply Hsym |].
    rewrite He at 1. cbn [m_name entry_of]. symmetry. apply Hflag. }
  split; [reflexivity |]. split; [reflexivity |]. split.
  - intros e. split; [apply Hmir |]. intros H. apply Hmir in H.
    now destruct e.
  - assert (Hne : forall X (l : list X),
      nonempty l = true <-> exists x, x ∈ l).
    { intros X [|x l]; cbn; split; try discriminate.
      - intros [x Hx]. inversion Hx.
      - intros _. exists x. left.
      - reflexivity. }
    assert (HM :
      nonempty (omap (modified_of (build_map A)) (build_map B))
      = nonempty (omap (modified_of (build_map B)) (build_map A))).
    { apply eq_true_iff_eq. rewrite !Hne.
      split; intros [e He]; exists (mirror e); now apply Hmir. }
    rewrite HM.
    destruct (nonempty (only_in _ _)), (nonempty (only_in _ _)); reflexivity.
Qed.

End ReportTheorems.

(** X13 on the first scenario of the scanner's life: nothing retained,
    one file found. *)
Lemma detectChanges_first_scan_sample :
  (detectChanges [Sample.ch1 (js "x1")] Sample.start).1
  = {| hasChanges := true; added := [Sample.ch1 (js "x1")]; removed := [];
       modified := []; unchanged := []; allFiles := [js "ch1"] |}.
Proof.
  exact
    (detectChanges_first_scan Sample.start [Sample.ch1 (js "x1")] eq_refl
       (NoDup_singleton (js "ch1"))).
Defined.

(** X14 on a retained snapshot of one file. *)
Lemma detectChanges_same_snapshot_sample :
  (detectChanges [Sample.ch1 (js "x1")]
     (Sample.retaining [Sample.ch1 (js "x1")])).1
  = {| hasChanges := false; added := []; removed := []; modified := [];
       unchanged := [Sample.ch1 (js "x1")]; allFiles := [js "ch1"] |}.
Proof.
  exact
    (detectChanges_same_snapshot (Sample.retaining [Sample.ch1 (js "x1")])
       (NoDup_singleton (js "ch1"))).
Defined.

(** ** Scans, the change handler and histories *)

Section ScanCycle.

Context {World Callback : Type} {env : Collaborators World Callback}
  {host : Host World Callback}.
Implicit Types (s : @Sys World Callback) (basePath : jsstring).

(** [performScan] after its scan of the directory. *)
Lemma performScan_eq s basePath :
  performScan basePath s
  = let '(currentFiles, s1) := scanDirectory basePath s in
    let changes := diff_snapshots (lastScanResults (self s)) currentFiles in
    let o := set_lastScanResults currentFiles (self s1) in
    let s2 := {| self := o; world := world s1; exchanges := exchanges s1 |} in
    if hasChanges changes && handler_truthy (onChange (self s)) then
      match onChange (self s) with
      | PrototypeMethod =>
          (Report changes,
           {| self := set_onChange (OwnProperty (VOther true)) o;
              world := world s1; exchanges := exchanges s1 |})
      | OwnProperty (VFunction f) =>
          let '(returned, w) := invoke f changes (world s1) in
          (if returned then Report changes else Failed,
           {| self := o; world := w; exchanges := exchanges s1 |})
      | OwnProperty (VOther _) => (Failed, s2)
      end
    else (Report changes, s2).
Proof.
  pose proof (Framed_scanDirectory basePath s) as (_ & Hlast & _ & Hon).
  unfold performScan. rewrite bind_apply.
  destruct (scanDirectory basePath s) as [currentFiles s1].
  cbn [snd] in Hlast, Hon. rewrite bind_apply, detectChanges_eq.
  rewrite Hlast. cbv zeta. rewrite <- Hon.
  unfold assign, this. rewrite !bind_apply. cbn [self onChange set_lastScanResults].
  destruct (hasChanges _ && handler_truthy _); [| reflexivity].
  destruct (onChange (self s1)) as [| [f | t]]; [reflexivity | | reflexivity].
  rewrite bind_apply. unfold call_host. cbn [world].
  now destruct (invoke f _ (world s1)) as [[|] w].
Qed.

(** X16.  The scanner without a registered handler.  The first scan that
    detects changes finds the method of lines 412-414 in
    [this.onChange] and calls it with the report: the report is returned,
    the new snapshot is retained, and [this.onChange] no longer is a
    function but the report itself. *)
Theorem performScan_unregistered_handler s basePath :
  onChange (self s) = PrototypeMethod ->
  hasChanges
    (diff_snapshots (lastScanResults (self s)) (scanDirectory basePath s).1)
  = true ->
  let '(result, s') := performScan basePath s in
  result
  = Report
      (diff_snapshots (lastScanResults (self s)) (scanDirectory basePath s).1) ∧
  onChange (self s') = OwnProperty (VOther true) ∧
  lastScanResults (self s') = (scanDirectory basePath s).1.
Proof.
  intros Hon Hch. rewrite performScan_eq.
  destruct (scanDirectory basePath s) as [currentFiles s1]. cbn [fst] in *.
  cbv zeta. rewrite Hch, Hon. cbn. repeat split.
Qed.

(** X17.  Once [this.onChange] holds a value that is truthy and not a
    function, a scan that detects changes throws on line 294 and answers
    on line 300: the caller gets [{ hasChanges: false }] although changes
    were detected.  The new snapshot was retained before, on line 290, so
    the changes will not be reported by a later scan either. *)
Theorem performScan_unusable_handler s basePath :
  onChange (self s) = OwnProperty (VOther true) ->
  hasChanges
    (diff_snapshots (lastScanResults (self s)) (scanDirectory basePath s).1)
  = true ->
  let '(result, s') := performScan basePath s in
  result = Failed ∧
  onChange (self s') = OwnProperty (VOther true) ∧
  lastScanResults (self s') = (scanDirectory basePath s).1.
Proof.
  intros Hon Hch. rewrite performScan_eq.
  pose proof (Framed_scanDirectory basePath s) as (_ & _ & _ & Hon').
  destruct (scanDirectory basePath s) as [currentFiles s1]. cbn [fst snd] in *.
  cbv zeta. rewrite Hch, Hon. cbn. rewrite Hon', Hon. repeat split.
Qed.

(** X18.  When a scan detects changes, a registered handler is called
    once, on the world the scan left, with the report of the comparison
    against the snapshot retained before the scan; the scan returns that
    report when the handler returns, and [{ hasChanges: false }] when it
    throws.  The new snapshot is retained in both cases. *)
Theorem performScan_registered_handler s basePath f :
  onChange (self s) = OwnProperty (VFunction f) ->
  hasChanges
    (diff_snapshots (lastScanResults (self s)) (scanDirectory basePath s).1)
  = true ->
  let '(currentFiles, s1) := scanDirectory basePath s in
  let changes := diff_snapshots (lastScanResults (self s)) currentFiles in
  let '(returned, w) := invoke f changes (world s1) in
  performScan basePath s
  = (if returned then Report changes else Failed,
     {| self := set_lastScanResults currentFiles (self s1);
        world := w; exchanges := exchanges s1 |}).
Proof.
  intros Hon Hch. rewrite performScan_eq.
  destruct (scanDirectory basePath s) as [currentFiles s1]. cbn [fst] in *.
  cbv zeta. rewrite Hch, Hon. cbn [handler_truthy andb].
  now destruct (invoke f _ (world s1)) as [returned w].
Qed.

(** X19.  A quiet scan.  When the directory scan yields the retained
    snapshot again, [performScan] reports no change, lists every file as
    unchanged, and does nothing beyond the directory scan: the handler is
    not called and the state is the one [scanDirectory] left. *)
Theorem performScan_quiet s basePath :
  (scanDirectory basePath s).1 = lastScanResults (self s) ->
  performScan basePath s
  = (Report
       {| hasChanges := false; added := []; removed := []; modified := [];
          unchanged := lastScanResults (self s);
          allFiles := map name (lastScanResults (self s)) |},
     (scanDirectory basePath s).2).
Proof.
  intros Hsame. rewrite performScan_eq.
  pose proof (scanDirectory_NoDup basePath s) as Hnd.
  pose proof (Framed_scanDirectory basePath s) as (_ & Hlast & _ & _).
  destruct (scanDirectory basePath s) as [currentFiles s1]. cbn [fst snd] in *.
  subst currentFiles. cbv zeta.
  rewrite diff_snapshots_same by assumption. cbn [hasChanges andb].
  f_equal. rewrite <- Hlast. now destruct s1 as [[] ? ?].
Qed.



End ScanCycle.

(** X16 on a sample: a fresh scanner finds one document. *)
Lemma performScan_unregistered_handler_sample :
  let env :=
    Sample.world_of (Sample.serving (js "/docs/chapter1.xml") (js "<quiz/>")) in
  onChange (self Sample.start) = PrototypeMethod ∧
  let '(result, s') := performScan (js "/docs/") Sample.start in
  (exists report, result = Report report ∧ hasChanges report = true) ∧
  onChange (self s') = OwnProperty (VOther true) ∧
  map name (lastScanResults (self s')) = [js "chapter1"].
Proof.
  intros env. split; [reflexivity |].
  pose proof
    (performScan_unregistered_handler (env := env) Sample.start (js "/docs/")
       eq_refl ltac:(vm_compute; reflexivity)) as H.
  destruct (performScan (js "/docs/") Sample.start) as [result s'].
  destruct H as (-> & Hon & Hlast).
  split; [eexists; split; [reflexivity | vm_compute; reflexivity] |].
  split; [exact Hon |]. rewrite Hlast. vm_compute. reflexivity.
Defined.

(** X17 on a sample: the document changes between two scans of a scanner
    on which no handler was registered. *)
Lemma performScan_unusable_handler_sample :
  let env := Servers.changing (js "/docs/chapter1.xml") in
  let s1 := (performScan (js "/docs/") Sample.start).2 in
  onChange (self s1) = OwnProperty (VOther true) ∧
  let '(result, s2) := performScan (js "/docs/") s1 in
  result = Failed ∧
  onChange (self s2) = OwnProperty (VOther true) ∧
  map name (lastScanResults (self s2)) = [js "chapter1"].
Proof.
  intros env s1.
  assert (Hon : onChange (self s1) = OwnProperty (VOther true))
    by (vm_compute; reflexivity).
  split; [exact Hon |].
  pose proof
    (performScan_unusable_handler (env := env) s1 (js "/docs/")
       Hon ltac:(vm_compute; reflexivity)) as H.
  destruct (performScan (js "/docs/") s1) as [result s2].
  destruct H as (-> & Hon2 & Hlast).
  split; [reflexivity |]. split; [exact Hon2 |].
  rewrite Hlast. vm_compute. reflexivity.
Defined.

(** X18 on a sample: a handler is registered on a fresh scanner, which
    then finds one document. *)
Lemma performScan_registered_handler_sample :
  let env :=
    Sample.world_of (Sample.serving (js "/docs/chapter1.xml") (js "<quiz/>")) in
  let s := (onChange_method (VFunction tt) Sample.start).2 in
  let '(currentFiles, s1) := scanDirectory (js "/docs/") s in
  let changes := diff_snapshots [] currentFiles in
  map name (added changes) = [js "chapter1"] ∧
  performScan (js "/docs/") s
  = (Report changes,
     {| self := set_lastScanResults currentFiles (self s1);
        world := (invoke tt changes (world s1)).2;
        exchanges := exchanges s1 |}).
Proof.
  intros env s.
  pose proof
    (performScan_registered_handler (env := env) s (js "/docs/") tt
       eq_refl ltac:(vm_compute; reflexivity)) as H.
  destruct (scanDirectory (js "/docs/") s) as [currentFiles s1] eqn:Hscan.
  cbv zeta in *.
  split.
  - apply (f_equal fst) in Hscan. cbn [fst] in Hscan. rewrite <- Hscan.
    vm_compute. reflexivity.
  - exact H.
Defined.

(** X19 on a sample: a second scan of a server that did not change. *)
Lemma performScan_quiet_sample :
  let env :=
    Sample.world_of (Sample.serving (js "/docs/chapter1.xml") (js "<quiz/>")) in
  let s1 := (performScan (js "/docs/") Sample.start).2 in
  (scanDirectory (js "/docs/") s1).1 = lastScanResults (self s1) ∧
  exists report,
    (performScan (js "/docs/") s1).1 = Report report ∧
    hasChanges report = false ∧
    map name (unchanged report) = [js "chapter1"].
Proof.
  intros env s1.
  assert (Hsame : (scanDirectory (js "/docs/") s1).1 = lastScanResults (self s1))
    by (vm_compute; reflexivity).
  split; [exact Hsame |].
  rewrite (performScan_quiet (env := env) s1 (js "/docs/") Hsame).
  eexists. split; [reflexivity |]. split; [reflexivity |].
  vm_compute. reflexivity.
Defined.
